(** * Contact search of imessage-mcp: cross-database pagination, name
      derivation, phone normalization and deduplication.

    Shallow embedding of the contacts module:
    - JavaScript strings are [string]; every character the functions inspect
      (digits, [+], [|], [%], space) is ASCII, so byte strings behave like the
      UTF-16 strings of the source for them;
    - [string | null] and [string | undefined] are [option string], and the
      truthiness test of the source ([if (s)], [!s], [a || b]) is [truthy];
    - the integers that flow through the pagination code are [Z]; the two
      divisions of the source produce a [number], which has the rationals and
      the three non-finite values a division by zero yields; [paginate]
      computes the metadata on these exactly, [paginate_double] computes them
      as the machine does, each result rounded to a double, and the two agree
      on integers below 2^53;
    - a database is described by what its two queries answer, and a query that
      throws is an [Err]; the loop of the aggregator is written in a small
      state-and-exception monad in which, as in JavaScript, the assignments
      made before a [throw] are kept when the exception is caught. *)

From Stdlib Require Import ZArith QArith Qround Qpower Lia Lqa Bool Ascii String List.
From stdpp Require Import base decidable gmap strings.
Import ListNotations.

Local Open Scope string_scope.
Local Open Scope Z_scope.

(** ** Strings *)

Definition truthy (s : option string) : bool :=
  match s with
  | Some (String _ _) => true
  | _ => false
  end.

(** The value of [s] when [if (s)] takes its branch. *)
Definition if_truthy (s : option string) : option string :=
  if truthy s then s else None.

(** [s.replace(/[^...]/g, "")]: the characters accepted by [keep] stay. *)
Fixpoint keep_chars (keep : ascii -> bool) (s : string) : string :=
  match s with
  | EmptyString => EmptyString
  | String c s' =>
      if keep c then String c (keep_chars keep s') else keep_chars keep s'
  end.

Definition is_digit (c : ascii) : bool :=
  let n := nat_of_ascii c in (Nat.leb 48 n && Nat.leb n 57)%bool.

Definition is_plus (c : ascii) : bool := Ascii.eqb c "+"%char.

Definition startsWith (s pre : string) : bool := String.prefix pre s.

(** [parts.join(sep)] *)
Fixpoint join (sep : string) (parts : list string) : string :=
  match parts with
  | [] => ""
  | [p] => p
  | p :: rest => p ++ sep ++ join sep rest
  end.

(** ** Name derivation *)

Definition push_if_truthy (parts : list string) (s : option string) : list string :=
  match if_truthy s with
  | Some v => (parts ++ [v])%list
  | None => parts
  end.

Definition buildFullName (firstName lastName organization : option string) : string :=
  let nameParts := [] in
  let nameParts := push_if_truthy nameParts firstName in
  let nameParts := push_if_truthy nameParts lastName in
  let nameParts :=
    if (Nat.eqb (List.length nameParts) 0 && truthy organization)%bool
    then push_if_truthy nameParts organization
    else nameParts in
  let joined := join " " nameParts in
  if truthy (Some joined) then joined else "Unknown".

(** ** Phone normalization *)

Definition normalizePhoneNumber (phone : string) : string :=
  let cleaned := keep_chars (fun c => is_digit c || is_plus c)%bool phone in
  if startsWith cleaned "+" then cleaned
  else if Nat.eqb (String.length cleaned) 10 then "+1" ++ cleaned
  else if (Nat.eqb (String.length cleaned) 11 && startsWith cleaned "1")%bool
       then "+" ++ cleaned
  else if truthy (Some cleaned) then cleaned else phone.

(** ** Rows and entries *)

Inductive HandleType : Type := Phone | Email.

Record ContactHandleRow : Type := {
  firstName : option string;
  lastName : option string;
  organization : option string;
  handle : string;
  handle_type : HandleType
}.

Record ContactInfo : Type := { name : string; phone : string }.

(** ** Deduplicating transformation *)

Definition row_name (row : ContactHandleRow) : string :=
  buildFullName (firstName row) (lastName row) (organization row).

Definition row_handle (row : ContactHandleRow) : string :=
  match handle_type row with
  | Phone => normalizePhoneNumber (handle row)
  | Email => handle row
  end.

Definition dedup_key (name handle : string) : string := name ++ "|" ++ handle.

(** The [for] loop of [transformToContactInfo]; [seen] is its [Set<string>]. *)
Fixpoint transform_loop (rows : list ContactHandleRow) (seen : gset string)
    (results : list ContactInfo) : list ContactInfo :=
  match rows with
  | [] => results
  | row :: rest =>
      let name := row_name row in
      let handle := row_handle row in
      if negb (truthy (Some handle)) then transform_loop rest seen results
      else
        let key := dedup_key name handle in
        if bool_decide (key ∈ seen) then transform_loop rest seen results
        else transform_loop rest ({[ key ]} ∪ seen)
               (results ++ [ {| name := name; phone := handle |} ])%list
  end.

Definition transformToContactInfo (rows : list ContactHandleRow) : list ContactInfo :=
  transform_loop rows ∅ [].

(** ** WHERE clause *)

Record WhereClause : Type := { whereClause : string; params : list string }.

Definition anyNameClause : string :=
  "(r.ZFIRSTNAME IS NOT NULL OR r.ZLASTNAME IS NOT NULL OR r.ZORGANIZATION IS NOT NULL)".

Definition bothNamesClause : string :=
  "
        (r.ZFIRSTNAME LIKE ? AND r.ZLASTNAME LIKE ?)
        AND (r.ZFIRSTNAME IS NOT NULL OR r.ZLASTNAME IS NOT NULL OR r.ZORGANIZATION IS NOT NULL)
      ".

Definition anyFieldClause : string :=
  "
      (r.ZFIRSTNAME LIKE ? OR r.ZLASTNAME LIKE ? OR r.ZORGANIZATION LIKE ? OR r.ZNICKNAME LIKE ?)
      AND (r.ZFIRSTNAME IS NOT NULL OR r.ZLASTNAME IS NOT NULL OR r.ZORGANIZATION IS NOT NULL)
    ".

Definition wildcard (term : string) : string := "%" ++ term ++ "%".

Definition buildWhereClause (firstName : string) (lastName : option string) : WhereClause :=
  if (String.eqb firstName "" && negb (truthy lastName))%bool then
    {| whereClause := anyNameClause; params := [] |}
  else
    match if_truthy lastName with
    | Some lastName =>
        let firstNamePattern := wildcard firstName in
        let lastNamePattern := wildcard lastName in
        {| whereClause := bothNamesClause;
           params := [firstNamePattern; lastNamePattern] |}
    | None =>
        let searchPattern := wildcard firstName in
        {| whereClause := anyFieldClause;
           params := [searchPattern; searchPattern; searchPattern; searchPattern] |}
    end.

(** Number of positional placeholders [?] of a clause. *)
Fixpoint placeholders (s : string) : nat :=
  match s with
  | EmptyString => 0%nat
  | String c s' => ((if Ascii.eqb c "?"%char then 1 else 0) + placeholders s')%nat
  end.

(** ** Numbers of the pagination metadata *)

Inductive number : Type :=
  | Finite (q : Q)
  | NaN
  | PosInfinity
  | NegInfinity.

Definition of_int (z : Z) : number := Finite (inject_Z z).

(** [a / b] for integer operands. *)
Definition js_div (a b : Z) : number :=
  if b =? 0 then
    if a =? 0 then NaN else if 0 <? a then PosInfinity else NegInfinity
  else Finite (inject_Z a / inject_Z b).

Definition Math_floor (x : number) : number :=
  match x with
  | Finite q => of_int (Qfloor q)
  | _ => x
  end.

Definition Math_ceil (x : number) : number :=
  match x with
  | Finite q => of_int (Qceiling q)
  | _ => x
  end.

Definition js_add (x y : number) : number :=
  match x, y with
  | NaN, _ | _, NaN => NaN
  | PosInfinity, NegInfinity | NegInfinity, PosInfinity => NaN
  | PosInfinity, _ | _, PosInfinity => PosInfinity
  | NegInfinity, _ | _, NegInfinity => NegInfinity
  | Finite p, Finite q => Finite (p + q)
  end.

(** ** Query layer *)

Inductive Result (A : Type) : Type :=
  | Ok (a : A)
  | Err (message : string).
Arguments Ok {A} a.
Arguments Err {A} message.

(** A database as the two statements see it. [select db clause allParams] is
    the answer of the [UNION ALL] of the phone join and the e-mail join under
    the WHERE clause [clause] bound to [allParams], in the order of
    [ORDER BY lastName, firstName, handle]; the count statement runs the same
    union. [count_error] and [fetch_error] hold the message of the exception
    with which the statement fails on this database, if it does. *)
Record Database : Type := {
  select : string -> list string -> list ContactHandleRow;
  count_error : option string;
  fetch_error : option string
}.

(** SQLite's [LIMIT limit OFFSET offset]: a negative limit is no limit, a
    negative offset is 0. *)
Definition limit_offset {A : Type} (limit offset : Z) (l : list A) : list A :=
  let rest := skipn (Z.to_nat offset) l in
  if limit <? 0 then rest else firstn (Z.to_nat limit) rest.

Definition countContactHandles (db : Database) (firstName : string)
    (lastName : option string) : Result Z :=
  let w := buildWhereClause firstName lastName in
  let allParams := (params w ++ params w)%list in
  match count_error db with
  | Some message => Err message
  | None => Ok (Z.of_nat (List.length (select db (whereClause w) allParams)))
  end.

Definition fetchContactHandles (db : Database) (firstName : string)
    (lastName : option string) (limit offset : Z) : Result (list ContactHandleRow) :=
  let w := buildWhereClause firstName lastName in
  let allParams := (params w ++ params w)%list in
  match fetch_error db with
  | Some message => Err message
  | None => Ok (limit_offset limit offset (select db (whereClause w) allParams))
  end.

(** ** Aggregation across databases *)

(** The statements issued, for the claims that speak of them. *)
Inductive Query : Type :=
  | CountQuery (db : Database)
  | FetchQuery (db : Database) (limit offset : Z).

(** The local variables of [searchContactHandlesAcrossDatabases], and the
    statements issued so far. *)
Record Vars : Type := {
  totalAcrossDbs : Z;
  remainingOffset : Z;
  remainingLimit : Z;
  results : list ContactHandleRow;
  issued : list Query
}.

(** Computations over the variables that may throw; the variables survive. *)
Definition M (A : Type) : Type := Vars -> Result A * Vars.

Definition ret {A : Type} (a : A) : M A := fun v => (Ok a, v).

Definition bind {A B : Type} (m : M A) (k : A -> M B) : M B :=
  fun v =>
    match m v with
    | (Ok a, v') => k a v'
    | (Err message, v') => (Err message, v')
    end.

Notation "x <- m ;; k" := (bind m (fun x => k))
  (at level 100, m at next level, right associativity).
Notation "m ;;; k" := (bind m (fun _ => k))
  (at level 100, right associativity).

Definition get : M Vars := fun v => (Ok v, v).

Definition modify (f : Vars -> Vars) : M unit := fun v => (Ok tt, f v).

(** [try { m } catch (error) { console.error(...) }] *)
Definition try_catch (m : M unit) : M unit :=
  fun v =>
    match m v with
    | (Ok _, v') => (Ok tt, v')
    | (Err _, v') => (Ok tt, v')
    end.

Definition log (q : Query) (v : Vars) : Vars :=
  {| totalAcrossDbs := totalAcrossDbs v; remainingOffset := remainingOffset v;
     remainingLimit := remainingLimit v; results := results v;
     issued := (issued v ++ [q])%list |}.

Definition run_count (db : Database) (firstName : string)
    (lastName : option string) : M Z :=
  fun v => (countContactHandles db firstName lastName, log (CountQuery db) v).

Definition run_fetch (db : Database) (firstName : string)
    (lastName : option string) (limit offset : Z) : M (list ContactHandleRow) :=
  fun v => (fetchContactHandles db firstName lastName limit offset,
            log (FetchQuery db limit offset) v).

Definition add_total (dbCount : Z) (v : Vars) : Vars :=
  {| totalAcrossDbs := totalAcrossDbs v + dbCount;
     remainingOffset := remainingOffset v; remainingLimit := remainingLimit v;
     results := results v; issued := issued v |}.

Definition skip_database (dbCount : Z) (v : Vars) : Vars :=
  {| totalAcrossDbs := totalAcrossDbs v;
     remainingOffset := remainingOffset v - dbCount;
     remainingLimit := remainingLimit v;
     results := results v; issued := issued v |}.

Definition take_rows (rows : list ContactHandleRow) (v : Vars) : Vars :=
  {| totalAcrossDbs := totalAcrossDbs v;
     remainingOffset := 0;
     remainingLimit := remainingLimit v - Z.of_nat (List.length rows);
     results := (results v ++ rows)%list; issued := issued v |}.

(** The body of the [try] block, for one database. *)
Definition visit (db : Database) (firstName : string) (lastName : option string)
    : M unit :=
  dbCount <- run_count db firstName lastName ;;
  modify (add_total dbCount) ;;;
  v <- get ;;
  if remainingOffset v >=? dbCount then modify (skip_database dbCount)
  else if remainingLimit v <=? 0 then ret tt
  else
    rows <- run_fetch db firstName lastName (remainingLimit v) (remainingOffset v) ;;
    modify (take_rows rows).

Fixpoint for_each (databases : list Database) (body : Database -> M unit) : M unit :=
  match databases with
  | [] => ret tt
  | db :: rest => body db ;;; for_each rest body
  end.

Record Handles : Type := { rows : list ContactHandleRow; total : Z }.

Definition initial (limit offset : Z) : Vars :=
  {| totalAcrossDbs := 0; remainingOffset := offset; remainingLimit := limit;
     results := []; issued := [] |}.

Definition search_loop (databases : list Database) (firstName : string)
    (lastName : option string) : M unit :=
  for_each databases (fun db => try_catch (visit db firstName lastName)).

Definition searchContactHandlesAcrossDatabases (databases : list Database)
    (firstName : string) (lastName : option string) (limit offset : Z)
    : Result Handles * Vars :=
  (search_loop databases firstName lastName ;;;
   v <- get ;;
   ret {| rows := results v; total := totalAcrossDbs v |}) (initial limit offset).

(** ** Orchestrator *)

Record Pagination : Type := {
  p_total : Z;
  p_limit : Z;
  p_offset : Z;
  hasMore : bool;
  page : number;
  totalPages : number
}.

Record PaginatedResult : Type := { data : list ContactInfo; pagination : Pagination }.

Definition paginate (total limit offset : Z) : Pagination :=
  let hasMore := offset + limit <? total in
  let page := js_add (Math_floor (js_div offset limit)) (of_int 1) in
  let totalPages := if 0 <? limit then Math_ceil (js_div total limit) else of_int 0 in
  {| p_total := total; p_limit := limit; p_offset := offset;
     hasMore := hasMore; page := page; totalPages := totalPages |}.

Definition searchContactsByName (contactsDatabases : list Database)
    (firstName : string) (lastName : option string) (limit offset : Z)
    : Result PaginatedResult :=
  match fst (searchContactHandlesAcrossDatabases contactsDatabases firstName
               lastName limit offset) with
  | Ok h =>
      let data := transformToContactInfo (rows h) in
      Ok {| data := data; pagination := paginate (total h) limit offset |}
  | Err errorMessage => Err ("Failed to search contacts: " ++ errorMessage)
  end.

(** ** The metadata in double precision *)

(** Numbers are IEEE 754 doubles: 53 significant bits, exponents of the unit
    in the last place from -1074 on, round to nearest with ties to even, and
    infinity from 2^1024 on. A finite double is held as the rational it is. *)

Definition pow2 (e : Z) : Q := Qpower 2 e.

(** The nearest integer, the even one of two that are equally near. *)
Definition round_half_even (x : Q) : Z :=
  let f := Qfloor x in
  match Qcompare (x - inject_Z f) (1 # 2) with
  | Lt => f
  | Gt => f + 1
  | Eq => if Z.even f then f else f + 1
  end.

(** For a positive [x], the exponent [e] of its unit in the last place:
    2^52 <= x / 2^e < 2^53, or -1074 where that would be lower. *)
Definition ulp_exponent (x : Q) : Z :=
  let e0 := Z.log2 (Qnum x) - Z.log2 (Zpos (Qden x)) - 53 in
  let e1 := if Qle_bool (pow2 53) (x / pow2 e0) then e0 + 1 else e0 in
  Z.max e1 (-1074).

Definition round_pos (x : Q) : number :=
  let e := ulp_exponent x in
  let y := (inject_Z (round_half_even (x / pow2 e)) * pow2 e)%Q in
  if Qle_bool (pow2 1024) y then PosInfinity else Finite y.

Definition negate (x : number) : number :=
  match x with
  | Finite q => Finite (- q)
  | NaN => NaN
  | PosInfinity => NegInfinity
  | NegInfinity => PosInfinity
  end.

(** The double nearest to a rational. *)
Definition round_double (x : Q) : number :=
  match Qcompare x 0 with
  | Eq => Finite 0
  | Gt => round_pos x
  | Lt => negate (round_pos (- x))
  end.

(** [a / b], [x + y] and [x < y] on doubles; [a] and [b] are integers that
    are doubles. *)
Definition double_div (a b : Z) : number :=
  if b =? 0 then
    if a =? 0 then NaN else if 0 <? a then PosInfinity else NegInfinity
  else round_double (inject_Z a / inject_Z b).

Definition double_add (x y : number) : number :=
  match x, y with
  | NaN, _ | _, NaN => NaN
  | PosInfinity, NegInfinity | NegInfinity, PosInfinity => NaN
  | PosInfinity, _ | _, PosInfinity => PosInfinity
  | NegInfinity, _ | _, NegInfinity => NegInfinity
  | Finite p, Finite q => round_double (p + q)
  end.

Definition number_ltb (x y : number) : bool :=
  match x, y with
  | NaN, _ | _, NaN => false
  | PosInfinity, _ => false
  | NegInfinity, NegInfinity => false
  | NegInfinity, _ => true
  | Finite _, PosInfinity => true
  | Finite _, NegInfinity => false
  | Finite p, Finite q => negb (Qle_bool q p)
  end.

(** The three lines of [searchContactsByName] that compute the metadata, as
    the machine evaluates them. *)
Definition paginate_double (total limit offset : Z) : Pagination :=
  let hasMore := number_ltb (double_add (of_int offset) (of_int limit)) (of_int total) in
  let page := double_add (Math_floor (double_div offset limit)) (of_int 1) in
  let totalPages :=
    if 0 <? limit then Math_ceil (double_div total limit) else of_int 0 in
  {| p_total := total; p_limit := limit; p_offset := offset;
     hasMore := hasMore; page := page; totalPages := totalPages |}.

(** ** Query texts and their bound parameters *)

(** A value bound to a placeholder: the patterns are strings, the limit and
    the offset are numbers. *)
Inductive SqlValue : Type :=
  | SqlText (s : string)
  | SqlInt (n : Z).

(** The text [countContactHandles] prepares. *)
Definition countQuery (whereClause : string) : string :=
  "
    SELECT COUNT(" ++ "*) as total FROM (
      SELECT 1
      FROM ZABCDRECORD r
      INNER JOIN ZABCDPHONENUMBER p ON p.ZOWNER = r.Z_PK
      WHERE " ++ whereClause ++ "
      AND p.ZFULLNUMBER IS NOT NULL

      UNION ALL

      SELECT 1
      FROM ZABCDRECORD r
      INNER JOIN ZABCDEMAILADDRESS e ON e.ZOWNER = r.Z_PK
      WHERE " ++ whereClause ++ "
      AND e.ZADDRESS IS NOT NULL
    )
  ".

(** The text [fetchContactHandles] prepares. *)
Definition dataQuery (whereClause : string) : string :=
  "
    SELECT
      r.ZFIRSTNAME as firstName,
      r.ZLASTNAME as lastName,
      r.ZORGANIZATION as organization,
      p.ZFULLNUMBER as handle,
      'phone' as handle_type
    FROM ZABCDRECORD r
    INNER JOIN ZABCDPHONENUMBER p ON p.ZOWNER = r.Z_PK
    WHERE " ++ whereClause ++ "
    AND p.ZFULLNUMBER IS NOT NULL

    UNION ALL

    SELECT
      r.ZFIRSTNAME as firstName,
      r.ZLASTNAME as lastName,
      r.ZORGANIZATION as organization,
      e.ZADDRESS as handle,
      'email' as handle_type
    FROM ZABCDRECORD r
    INNER JOIN ZABCDEMAILADDRESS e ON e.ZOWNER = r.Z_PK
    WHERE " ++ whereClause ++ "
    AND e.ZADDRESS IS NOT NULL

    ORDER BY lastName, firstName, handle
    LIMIT ? OFFSET ?
  ".

(** The statement of [countContactHandles]: its text and what it binds. *)
Definition count_statement (firstName : string) (lastName : option string)
    : string * list SqlValue :=
  let w := buildWhereClause firstName lastName in
  let allParams := map SqlText (params w ++ params w)%list in
  (countQuery (whereClause w), allParams).

(** The statement of [fetchContactHandles]. *)
Definition fetch_statement (firstName : string) (lastName : option string)
    (limit offset : Z) : string * list SqlValue :=
  let w := buildWhereClause firstName lastName in
  let allParams :=
    (map SqlText (params w ++ params w) ++ [SqlInt limit; SqlInt offset])%list in
  (dataQuery (whereClause w), allParams).

(** ** Discovery of the databases *)

Record DirEntry : Type := { entry_name : string; isDirectory : bool }.

(** What [openContactsDatabases] asks of its environment: the home directory,
    [join] of [node:path], [Deno.readDirSync], [Deno.statSync(...).isFile] and
    [new Database(path, { readonly: true })]; each of the last three may
    throw. *)
Record Env : Type := {
  homedir : string;
  path_join : list string -> string;
  readDirSync : string -> Result (list DirEntry);
  statSync_isFile : string -> Result bool;
  new_Database : string -> Result Database
}.

(** The second loop of [openContactsDatabases]; an [Err] leaves the loop for
    the outer [catch], with the databases pushed so far. *)
Fixpoint open_sources (env : Env) (addressBookBasePath : string)
    (sourcesDirs : list string) (databases : list Database)
    : Result unit * list Database :=
  match sourcesDirs with
  | [] => (Ok tt, databases)
  | sourceDir :: rest =>
      let dbPath :=
        path_join env [addressBookBasePath; sourceDir; "AddressBook-v22.abcddb"] in
      match statSync_isFile env dbPath with
      | Err _ => open_sources env addressBookBasePath rest databases
      | Ok isFile =>
          if negb isFile then open_sources env addressBookBasePath rest databases
          else
            match new_Database env dbPath with
            | Err message => (Err message, databases)
            | Ok db =>
                open_sources env addressBookBasePath rest (databases ++ [db])%list
            end
      end
  end.

Definition addressBookBasePath (env : Env) : string :=
  path_join env
    [homedir env; "Library"; "Application Support"; "AddressBook"; "Sources"].

Definition openContactsDatabases (env : Env) : list Database :=
  let databases := [] in
  match readDirSync env (addressBookBasePath env) with
  | Err _ => databases
  | Ok entries =>
      let sourcesDirs := map entry_name (List.filter isDirectory entries) in
      snd (open_sources env (addressBookBasePath env) sourcesDirs databases)
  end.

(** ** The schema of the [search_contacts] tool *)

(** The arguments as they arrive, for integer numbers: a field may be
    missing. *)
Record RawArgs : Type := {
  raw_firstName : option string;
  raw_lastName : option string;
  raw_limit : option Z;
  raw_offset : option Z
}.

Record Args : Type := {
  arg_firstName : string;
  arg_lastName : option string;
  arg_limit : Z;
  arg_offset : Z
}.

(** [SearchContactsSchema]: [firstName] is a string of at least one
    character, [lastName] is optional, [limit] is between 1 and 200 and 50 by
    default, [offset] is at least 0 and 0 by default. [None] is a rejection. *)
Definition SearchContactsSchema (raw : RawArgs) : option Args :=
  match raw_firstName raw with
  | None => None
  | Some firstName =>
      let limit := match raw_limit raw with Some n => n | None => 50 end in
      let offset := match raw_offset raw with Some n => n | None => 0 end in
      if (Nat.leb 1 (String.length firstName)
          && (1 <=? limit) && (limit <=? 200) && (0 <=? offset))%bool
      then Some {| arg_firstName := firstName; arg_lastName := raw_lastName raw;
                   arg_limit := limit; arg_offset := offset |}
      else None
  end.

(** The handler of the tool, before the result is serialized: an exception of
    the search becomes a text. *)
Definition search_contacts (contactsDatabases : list Database) (args : Args)
    : PaginatedResult + string :=
  match searchContactsByName contactsDatabases (arg_firstName args)
          (arg_lastName args) (arg_limit args) (arg_offset args) with
  | Ok result => inl result
  | Err message => inr ("Error searching contacts: " ++ message)
  end.

(** ** The specification's wording, for the claims that are compared with it *)

(** A nullable string that is neither null nor empty. *)
Definition nonempty (s : option string) : option string :=
  match s with
  | Some EmptyString => None
  | _ => s
  end.

Definition parts_of (s : option string) : list string :=
  match s with
  | Some v => [v]
  | None => []
  end.

(** Name derivation as worded: the fields that are not null are joined, the
    organization is the fallback when neither name is present, and
    ["Unknown"] replaces an empty outcome. *)
Definition spec_buildFullName (firstName lastName organization : option string) : string :=
  let names := (parts_of firstName ++ parts_of lastName)%list in
  let nameParts := match names with [] => parts_of organization | _ => names end in
  match join " " nameParts with
  | EmptyString => "Unknown"
  | joined => joined
  end.

(** Cleaning as worded: digits stay, and a [+] stays only when it leads, that
    is when nothing that stays comes before it. *)
Fixpoint spec_clean (phone : string) : string :=
  match phone with
  | EmptyString => EmptyString
  | String c rest =>
      if (is_plus c || is_digit c)%bool then String c (keep_chars is_digit rest)
      else spec_clean rest
  end.

Definition spec_normalizePhoneNumber (phone : string) : string :=
  let cleaned := spec_clean phone in
  if startsWith cleaned "+" then cleaned
  else if Nat.eqb (String.length cleaned) 10 then "+1" ++ cleaned
  else if (Nat.eqb (String.length cleaned) 11 && startsWith cleaned "1")%bool
       then "+" ++ cleaned
  else match cleaned with EmptyString => phone | _ => cleaned end.

(** Predicate selection as worded: [lastName] present is [Some _]. *)
Definition spec_buildWhereClause (firstName : string) (lastName : option string) : WhereClause :=
  match lastName with
  | Some ln =>
      {| whereClause := bothNamesClause; params := [wildcard firstName; wildcard ln] |}
  | None =>
      if String.eqb firstName "" then {| whereClause := anyNameClause; params := [] |}
      else {| whereClause := anyFieldClause;
              params := [wildcard firstName; wildcard firstName;
                         wildcard firstName; wildcard firstName] |}
  end.

(** ** Auxiliary definitions of the proofs *)

Fixpoint all_chars (keep : ascii -> bool) (s : string) : bool :=
  match s with
  | EmptyString => true
  | String c s' => (keep c && all_chars keep s')%bool
  end.

Definition kept (c : ascii) : bool := (is_digit c || is_plus c)%bool.

(** The rows a database holds for a search, its count of them, and what a
    visit adds to the total: the count when the count statement succeeds. *)
Definition matching (firstName : string) (lastName : option string)
    (db : Database) : list ContactHandleRow :=
  let w := buildWhereClause firstName lastName in
  select db (whereClause w) (params w ++ params w)%list.

Definition count_of (firstName : string) (lastName : option string)
    (db : Database) : Z :=
  Z.of_nat (List.length (matching firstName lastName db)).

Definition counted (firstName : string) (lastName : option string)
    (db : Database) : Z :=
  match countContactHandles db firstName lastName with
  | Ok c => c
  | Err _ => 0
  end.

Definition sum (l : list Z) : Z := fold_right Z.add 0 l.

Definition is_phone (row : ContactHandleRow) : bool :=
  match handle_type row with Phone => true | Email => false end.

Definition healthy (db : Database) : Prop :=
  count_error db = None /\ fetch_error db = None.

(** The variables after one round of the loop, in closed form. *)
Definition after_visit (firstName : string) (lastName : option string)
    (v : Vars) (db : Database) : Vars :=
  let v0 := log (CountQuery db) v in
  match countContactHandles db firstName lastName with
  | Err _ => v0
  | Ok dbCount =>
      let v1 := add_total dbCount v0 in
      if remainingOffset v1 >=? dbCount then skip_database dbCount v1
      else if remainingLimit v1 <=? 0 then v1
      else
        let v2 := log (FetchQuery db (remainingLimit v1) (remainingOffset v1)) v1 in
        match fetchContactHandles db firstName lastName
                (remainingLimit v1) (remainingOffset v1) with
        | Err _ => v2
        | Ok rows => take_rows rows v2
        end
  end.

(** Sample data for the closed instances of the theorems. *)
Definition email_row (first : string) (address : string) : ContactHandleRow :=
  {| firstName := Some first; lastName := None; organization := None;
     handle := address; handle_type := Email |}.

Definition static_db (answer : list ContactHandleRow)
    (count_error fetch_error : option string) : Database :=
  {| select := fun _ _ => answer;
     count_error := count_error; fetch_error := fetch_error |}.

Definition sample_rows (n : nat) : list ContactHandleRow :=
  map (fun i => email_row "Jo" (String (ascii_of_nat (97 + i)) "@example.org"))
      (seq 0 n).

Definition db3 : Database := static_db (sample_rows 3) None None.
Definition db5 : Database := static_db (sample_rows 5) None None.
Definition db2 : Database := static_db (sample_rows 2) None None.

Definition db5_fetch_fails : Database :=
  static_db (sample_rows 5) None (Some "disk I/O error").

(** Two states of the loop that differ at most in the total and in the record
    of the statements issued. *)
Definition same_window (v v' : Vars) : Prop :=
  remainingOffset v = remainingOffset v' /\
  remainingLimit v = remainingLimit v' /\
  results v = results v'.

(** What the total holds beyond the rows gathered: the rows skipped, the rows
    left behind, and the counts of the databases whose fetch failed. *)
Definition surplus (v : Vars) : Z :=
  totalAcrossDbs v + remainingOffset v - Z.of_nat (List.length (results v)).

(** [n] is the integer [k]. *)
Definition number_is (n : number) (k : Z) : Prop :=
  match n with
  | Finite q => Qeq q (inject_Z k)
  | _ => False
  end.

(** The window the data model asks for: a page from 1 on, a number of pages
    from 0 on. *)
Definition well_formed (p : Pagination) : Prop :=
  (exists k, number_is (page p) k /\ 1 <= k) /\
  (exists k, number_is (totalPages p) k /\ 0 <= k).

Definition entry_of (row : ContactHandleRow) : ContactInfo :=
  {| name := row_name row; phone := row_handle row |}.

Definition key_of (e : ContactInfo) : string := dedup_key (name e) (phone e).

(** Two rows whose names and handles differ while their keys coincide. *)
Definition row_bar_in_name : ContactHandleRow := email_row "A|B" "c@example.org".
Definition row_bar_in_handle : ContactHandleRow := email_row "A" "B|c@example.org".

(** All the rows the databases hold for a search, in the order of the
    databases. *)
Definition all_matching (firstName : string) (lastName : option string)
    (databases : list Database) : list ContactHandleRow :=
  concat (map (matching firstName lastName) databases).

(** The global window over a list of rows. *)
Definition window {A : Type} (limit offset : Z) (l : list A) : list A :=
  firstn (Z.to_nat limit) (skipn (Z.to_nat offset) l).

(** The rows and the total a search over the databases returns. *)
Definition rows_of (databases : list Database) (firstName : string)
    (lastName : option string) (limit offset : Z) : list ContactHandleRow :=
  results (snd (searchContactHandlesAcrossDatabases databases firstName lastName
                  limit offset)).

Definition total_of (databases : list Database) (firstName : string)
    (lastName : option string) (limit offset : Z) : Z :=
  totalAcrossDbs (snd (searchContactHandlesAcrossDatabases databases firstName
                         lastName limit offset)).

Definition is_fetch (q : Query) : bool :=
  match q with FetchQuery _ _ _ => true | CountQuery _ => false end.

(** The statements one database may receive during a call. *)
Definition visit_statements (db : Database) (qs : list Query) : Prop :=
  qs = [CountQuery db] \/
  exists limit offset, 0 < limit /\ qs = [CountQuery db; FetchQuery db limit offset].

(** The set of the keys of the entries gathered. *)
Definition seen_of (results : list ContactInfo) : gset string :=
  list_to_set (key_of <$> results).

Definition has_handle (row : ContactHandleRow) : bool :=
  negb (String.eqb (handle row) "").

(** An environment for the closed instances: two directories with a database
    file, a plain file, and a directory without one. *)
Definition sample_env : Env :=
  {| homedir := "/Users/jo";
     path_join := String.concat "/";
     readDirSync := fun _ =>
       Ok [ {| entry_name := "A"; isDirectory := true |};
            {| entry_name := "notes.txt"; isDirectory := false |};
            {| entry_name := "B"; isDirectory := true |};
            {| entry_name := "C"; isDirectory := true |} ];
     statSync_isFile := fun path =>
       if String.eqb path
            "/Users/jo/Library/Application Support/AddressBook/Sources/B/AddressBook-v22.abcddb"
       then Err "No such file or directory"
       else Ok true;
     new_Database := fun path =>
       if String.eqb path
            "/Users/jo/Library/Application Support/AddressBook/Sources/A/AddressBook-v22.abcddb"
       then Ok db3 else Ok db2 |}.

(** The paths at which [openContactsDatabases] finds a database file: the
    database file of each directory listed, where it is a regular file. *)
Definition database_paths (env : Env) : list string :=
  match readDirSync env (addressBookBasePath env) with
  | Err _ => []
  | Ok entries =>
      List.filter
        (fun path => match statSync_isFile env path with
                     | Ok true => true
                     | _ => false
                     end)
        (map (fun e => path_join env [addressBookBasePath env; entry_name e;
                                      "AddressBook-v22.abcddb"])
             (List.filter isDirectory entries))
  end.

(** Opening the paths one after the other, up to the first that fails. *)
Fixpoint open_until_failure (env : Env) (paths : list string) : list Database :=
  match paths with
  | [] => []
  | path :: rest =>
      match new_Database env path with
      | Ok db => db :: open_until_failure env rest
      | Err _ => []
      end
  end.

(** How the loop that opens the paths ends: normally, or with the exception
    of the first path that fails to open. *)
Fixpoint first_open_failure (env : Env) (paths : list string) : Result unit :=
  match paths with
  | [] => Ok tt
  | path :: rest =>
      match new_Database env path with
      | Ok _ => first_open_failure env rest
      | Err message => Err message
      end
  end.

(** The terms of a search reduced to what decides the shape of the clause. *)
Definition shape_only (firstName : string) (lastName : option string)
    : string * option string :=
  (match firstName with EmptyString => "" | _ => "x" end,
   if truthy lastName then Some "x" else None).

Definition sample_listing : list DirEntry :=
  [ {| entry_name := "A"; isDirectory := true |};
    {| entry_name := "B"; isDirectory := true |};
    {| entry_name := "C"; isDirectory := true |} ].

Definition sample_path (directory : string) : string :=
  "/Users/jo/Library/Application Support/AddressBook/Sources/" ++ directory
    ++ "/AddressBook-v22.abcddb".

(** As [sample_env], with a database file in each directory, of which the
    second cannot be opened. *)
Definition sample_env_corrupt : Env :=
  {| homedir := "/Users/jo";
     path_join := String.concat "/";
     readDirSync := fun _ => Ok sample_listing;
     statSync_isFile := fun _ => Ok true;
     new_Database := fun path =>
       if String.eqb path (sample_path "B") then Err "file is not a database"
       else Ok db3 |}.

Definition sample_env_unreadable : Env :=
  {| homedir := "/Users/jo";
     path_join := String.concat "/";
     readDirSync := fun _ => Err "Permission denied";
     statSync_isFile := fun _ => Ok true;
     new_Database := fun _ => Ok db3 |}.

(** The same number, a finite one up to the equality of rationals. *)
Definition same_number (x y : number) : Prop :=
  match x, y with
  | Finite p, Finite q => (p == q)%Q
  | NaN, NaN | PosInfinity, PosInfinity | NegInfinity, NegInfinity => True
  | _, _ => False
  end.

(** The three tests of a visit once the count is known. *)
Ltac visit_branches v c :=
  destruct (remainingOffset v >=? c) eqn:?;
  [| destruct (remainingLimit v <=? 0) eqn:?;
     [| destruct (fetchContactHandles _ _ _ (remainingLimit v) (remainingOffset v))
          eqn:? ] ].

(** * Theorems *)

(** ** Strings *)

Lemma keep_chars_all keep s : all_chars keep (keep_chars keep s) = true.
Proof.
  induction s as [|c s IH]; simpl; [reflexivity|].
  destruct (keep c) eqn:E; simpl; [rewrite E|]; exact IH.
Qed.

Lemma keep_chars_fixed keep s : all_chars keep s = true -> keep_chars keep s = s.
Proof.
  induction s as [|c s IH]; simpl; [reflexivity|].
  intros H. apply andb_prop in H as [Hc Hs]. rewrite Hc, (IH Hs). reflexivity.
Qed.

Lemma keep_chars_idem keep s : keep_chars keep (keep_chars keep s) = keep_chars keep s.
Proof. apply keep_chars_fixed, keep_chars_all. Qed.

Lemma keep_chars_filter keep s :
  keep_chars keep s = string_of_list_ascii (List.filter keep (list_ascii_of_string s)).
Proof.
  induction s as [|c s IH]; simpl; [reflexivity|].
  destruct (keep c); simpl; rewrite IH; reflexivity.
Qed.

(** ** Name derivation *)

Lemma nonempty_if_truthy s : if_truthy s = nonempty s.
Proof. destruct s as [[|c s]|]; reflexivity. Qed.

(** C6 (amended). [buildFullName] joins the first and last name that are
    neither null nor empty with one space, in that order; when neither is
    there it takes the organization if that is neither null nor empty, and
    ["Unknown"] otherwise. It maps (null, null, null) to "Unknown",
    (null, null, "Acme Corp") to "Acme Corp" and ("Jane", "Doe", null) to
    "Jane Doe". *)
Theorem buildFullName_nonempty_parts :
  (forall f l o : option string,
      buildFullName f l o =
      match nonempty f, nonempty l with
      | Some a, Some b => a ++ " " ++ b
      | Some a, None => a
      | None, Some b => b
      | None, None =>
          match nonempty o with
          | Some c => c
          | None => "Unknown"
          end
      end) /\
  buildFullName None None None = "Unknown" /\
  buildFullName None None (Some "Acme Corp") = "Acme Corp" /\
  buildFullName (Some "Jane") (Some "Doe") None = "Jane Doe".
Proof.
  split; [|repeat split].
  intros f l o. unfold buildFullName, push_if_truthy.
  rewrite !nonempty_if_truthy.
  destruct f as [[|c1 f]|], l as [[|c2 l]|], o as [[|c3 o]|]; reflexivity.
Qed.

(** C6, as stated, fails: an empty first name is not null, yet it is not
    joined. *)
Lemma buildFullName_empty_first_name :
  buildFullName (Some "") (Some "Doe") None = "Doe" /\
  spec_buildFullName (Some "") (Some "Doe") None = " Doe" /\
  buildFullName (Some "") (Some "Doe") None
    <> spec_buildFullName (Some "") (Some "Doe") None.
Proof. repeat split. discriminate. Qed.

(** ** Phone normalization *)

Lemma normalize_unfold phone :
  normalizePhoneNumber phone =
  let cleaned := keep_chars kept phone in
  if startsWith cleaned "+" then cleaned
  else if Nat.eqb (String.length cleaned) 10 then "+1" ++ cleaned
  else if (Nat.eqb (String.length cleaned) 11 && startsWith cleaned "1")%bool
       then "+" ++ cleaned
  else if truthy (Some cleaned) then cleaned else phone.
Proof. reflexivity. Qed.

Lemma startsWith_head a s : startsWith (String a s) (String a "") = true.
Proof.
  unfold startsWith. simpl. destruct (ascii_dec a a); [|congruence].
  destruct s; reflexivity.
Qed.

Lemma normalize_fixed c :
  all_chars kept c = true -> startsWith c "+" = true -> normalizePhoneNumber c = c.
Proof.
  intros Hall Hplus. rewrite normalize_unfold. cbv zeta.
  rewrite (keep_chars_fixed _ _ Hall), Hplus. reflexivity.
Qed.

(** C4 (amended). The cleaned string is the input with every character other
    than a digit or a [+] removed, whatever the position of the [+]; the
    result is the cleaned string when it starts with [+], ["+1"] followed by it
    when it has exactly 10 characters, ["+"] followed by it when it has exactly
    11 characters and starts with [1], and otherwise the cleaned string, or
    the input itself when the cleaned string is empty. The three sample
    numbers normalize as listed. *)
Theorem normalizePhoneNumber_cases (phone : string) :
  let cleaned :=
    string_of_list_ascii
      (List.filter (fun c => is_digit c || is_plus c)%bool (list_ascii_of_string phone)) in
  (startsWith cleaned "+" = true -> normalizePhoneNumber phone = cleaned) /\
  (startsWith cleaned "+" = false -> String.length cleaned = 10%nat ->
     normalizePhoneNumber phone = "+1" ++ cleaned) /\
  (startsWith cleaned "+" = false -> String.length cleaned = 11%nat ->
     startsWith cleaned "1" = true -> normalizePhoneNumber phone = "+" ++ cleaned) /\
  (startsWith cleaned "+" = false -> String.length cleaned <> 10%nat ->
     ~ (String.length cleaned = 11%nat /\ startsWith cleaned "1" = true) ->
     cleaned <> "" -> normalizePhoneNumber phone = cleaned) /\
  (cleaned = "" -> normalizePhoneNumber phone = phone) /\
  normalizePhoneNumber "555-123-4567" = "+15551234567" /\
  normalizePhoneNumber "15551234567" = "+15551234567" /\
  normalizePhoneNumber "+44 20 7946 0958" = "+442079460958".
Proof.
  intros cleaned. subst cleaned. rewrite <- keep_chars_filter.
  rewrite normalize_unfold. cbv zeta. fold kept.
  set (c := keep_chars kept phone).
  repeat split; try reflexivity.
  - intros ->. reflexivity.
  - intros -> ->. reflexivity.
  - intros -> -> ->. reflexivity.
  - intros -> H10 H11 Hne.
    apply Nat.eqb_neq in H10. rewrite H10.
    destruct (Nat.eqb (String.length c) 11) eqn:E11.
    + apply Nat.eqb_eq in E11.
      destruct (startsWith c "1") eqn:E1; [exfalso; apply H11; split; auto|].
      simpl. destruct c; [congruence|reflexivity].
    + simpl. destruct c; [congruence|reflexivity].
  - intros ->. reflexivity.
Qed.

Lemma normalizePhoneNumber_cases_witness :
  normalizePhoneNumber "(555) 123-4567" = "+15551234567".
Proof.
  apply (proj1 (proj2 (normalizePhoneNumber_cases "(555) 123-4567")));
    reflexivity.
Defined.

(** C4, as stated, fails: a [+] that does not lead is kept by the code. *)
Lemma normalizePhoneNumber_inner_plus :
  normalizePhoneNumber "555+1234" = "555+1234" /\
  spec_normalizePhoneNumber "555+1234" = "5551234" /\
  normalizePhoneNumber "555+1234" <> spec_normalizePhoneNumber "555+1234".
Proof. repeat split. discriminate. Qed.

(** C10. Phone normalization is idempotent. *)
Theorem normalizePhoneNumber_idempotent (p : string) :
  normalizePhoneNumber (normalizePhoneNumber p) = normalizePhoneNumber p.
Proof.
  rewrite (normalize_unfold p). cbv zeta.
  pose proof (keep_chars_all kept p) as Hall.
  set (c := keep_chars kept p) in *.
  destruct (startsWith c "+") eqn:Eplus.
  { apply normalize_fixed; assumption. }
  destruct (Nat.eqb (String.length c) 10) eqn:E10.
  { apply normalize_fixed; [simpl; exact Hall | reflexivity]. }
  destruct (Nat.eqb (String.length c) 11 && startsWith c "1")%bool eqn:E11.
  { apply normalize_fixed; [simpl; exact Hall | apply startsWith_head]. }
  destruct c as [|a c'] eqn:Ec.
  - simpl. rewrite normalize_unfold. cbv zeta. fold c. rewrite Ec. reflexivity.
  - cbn [truthy]. rewrite normalize_unfold. cbv zeta.
    rewrite (keep_chars_fixed _ _ Hall), Eplus, E10, E11. reflexivity.
Qed.

(** ** WHERE clause *)

(** C7 (amended). [buildWhereClause] answers with exactly one of three
    shapes: the any-non-null-name-field predicate without parameters when
    [firstName] is empty and [lastName] is undefined or empty; the conjunction
    of the two substring matches with the parameters (firstNamePattern,
    lastNamePattern) when [lastName] is a non-empty string; the disjunction
    over the four name fields with four times the wildcarded [firstName]
    otherwise. In each shape the clause has as many placeholders as there
    are parameters. *)
Theorem buildWhereClause_shapes (firstName : string) (lastName : option string) :
  let w := buildWhereClause firstName lastName in
  match nonempty lastName with
  | Some ln =>
      w = {| whereClause := bothNamesClause;
             params := ["%" ++ firstName ++ "%"; "%" ++ ln ++ "%"] |}
  | None =>
      match firstName with
      | EmptyString => w = {| whereClause := anyNameClause; params := [] |}
      | _ =>
          w = {| whereClause := anyFieldClause;
                 params := ["%" ++ firstName ++ "%"; "%" ++ firstName ++ "%";
                            "%" ++ firstName ++ "%"; "%" ++ firstName ++ "%"] |}
      end
  end /\
  placeholders (whereClause w) = List.length (params w) /\
  anyNameClause <> bothNamesClause /\
  anyNameClause <> anyFieldClause /\
  bothNamesClause <> anyFieldClause.
Proof.
  cbv zeta. unfold buildWhereClause. rewrite nonempty_if_truthy.
  destruct lastName as [[|c ln]|], firstName as [|d fn];
    repeat split; discriminate.
Qed.

(** C7, as stated, fails: an empty [lastName] is present, yet the code
    does not build the conjunction for it. *)
Lemma buildWhereClause_empty_last_name :
  params (buildWhereClause "John" (Some "")) =
    ["%John%"; "%John%"; "%John%"; "%John%"] /\
  params (spec_buildWhereClause "John" (Some "")) = ["%John%"; "%%"] /\
  buildWhereClause "John" (Some "") <> spec_buildWhereClause "John" (Some "").
Proof. repeat split. discriminate. Qed.

(** ** The loop over the databases *)

Section Loop.

Variables (fn : string) (ln : option string).

Lemma visit_after db v :
  try_catch (visit db fn ln) v = (Ok tt, after_visit fn ln v db).
Proof.
  unfold try_catch, visit, after_visit, bind, run_count, run_fetch, modify, get, ret.
  destruct (countContactHandles db fn ln) as [c|e]; [|reflexivity].
  cbn [remainingOffset remainingLimit add_total log].
  visit_branches v c; reflexivity.
Qed.

Lemma search_loop_after dbs v :
  search_loop dbs fn ln v = (Ok tt, fold_left (after_visit fn ln) dbs v).
Proof.
  unfold search_loop. revert v.
  induction dbs as [|db dbs IH]; intros v; [reflexivity|].
  cbn [for_each fold_left]. unfold bind at 1. rewrite visit_after. apply IH.
Qed.

Lemma count_healthy db :
  count_error db = None -> countContactHandles db fn ln = Ok (count_of fn ln db).
Proof. intros H. unfold countContactHandles. rewrite H. reflexivity. Qed.

Lemma fetch_healthy db limit offset :
  fetch_error db = None ->
  fetchContactHandles db fn ln limit offset =
    Ok (limit_offset limit offset (matching fn ln db)).
Proof. intros H. unfold fetchContactHandles. rewrite H. reflexivity. Qed.

Lemma count_of_nonneg db : 0 <= count_of fn ln db.
Proof. unfold count_of. lia. Qed.

Lemma counted_nonneg db : 0 <= counted fn ln db.
Proof.
  unfold counted, countContactHandles.
  destruct (count_error db); lia.
Qed.

Lemma after_visit_total v db :
  totalAcrossDbs (after_visit fn ln v db) = totalAcrossDbs v + counted fn ln db.
Proof.
  unfold after_visit, counted.
  destruct (countContactHandles db fn ln) as [c|e]; cbn; [|lia].
  visit_branches v c; reflexivity.
Qed.

Lemma loop_total dbs v :
  totalAcrossDbs (fold_left (after_visit fn ln) dbs v) =
  totalAcrossDbs v + sum (map (counted fn ln) dbs).
Proof.
  revert v. induction dbs as [|db dbs IH]; intros v; cbn [fold_left map sum fold_right].
  - lia.
  - rewrite IH, after_visit_total. fold (sum (map (counted fn ln) dbs)). lia.
Qed.

Lemma counted_healthy dbs :
  Forall healthy dbs -> map (counted fn ln) dbs = map (count_of fn ln) dbs.
Proof.
  induction 1 as [|db dbs [Hc _] _ IH]; [reflexivity|].
  cbn [map]. rewrite IH. unfold counted. rewrite (count_healthy _ Hc).
  reflexivity.
Qed.

End Loop.

Lemma search_handles_after dbs fn ln limit offset :
  searchContactHandlesAcrossDatabases dbs fn ln limit offset =
  let v := fold_left (after_visit fn ln) dbs (initial limit offset) in
  (Ok {| rows := results v; total := totalAcrossDbs v |}, v).
Proof.
  unfold searchContactHandlesAcrossDatabases, bind.
  rewrite search_loop_after. reflexivity.
Qed.

Lemma phone_email_split (l : list ContactHandleRow) :
  List.length l =
  (List.length (List.filter is_phone l) +
   List.length (List.filter (fun r => negb (is_phone r)) l))%nat.
Proof.
  induction l as [|r l IH]; [reflexivity|].
  cbn [List.filter List.length]. destruct (is_phone r); cbn [negb List.length]; lia.
Qed.

(** C2. When no query fails, the reported total is the sum of the counts of
    all the databases, each count being the phone rows plus the e-mail rows
    that match, whatever the limit and the offset; a database visited with the
    page already full still adds its count. *)
Theorem total_is_sum_of_counts (databases : list Database) (firstName : string)
    (lastName : option string) (limit offset : Z) :
  Forall healthy databases ->
  (exists h v,
      searchContactHandlesAcrossDatabases databases firstName lastName limit offset
        = (Ok h, v) /\
      total h = sum (map (count_of firstName lastName) databases)) /\
  (forall db, count_of firstName lastName db =
      Z.of_nat (List.length (List.filter is_phone (matching firstName lastName db))) +
      Z.of_nat (List.length (List.filter (fun r => negb (is_phone r))
                               (matching firstName lastName db)))) /\
  (forall db v, healthy db -> remainingLimit v <= 0 ->
      try_catch (visit db firstName lastName) v =
        (Ok tt, after_visit firstName lastName v db) /\
      results (after_visit firstName lastName v db) = results v /\
      totalAcrossDbs (after_visit firstName lastName v db) =
        totalAcrossDbs v + count_of firstName lastName db).
Proof.
  intros Hh. repeat split.
  - rewrite search_handles_after. cbv zeta. eexists _, _. split; [reflexivity|].
    cbn [total]. rewrite loop_total, (counted_healthy _ _ _ Hh). reflexivity.
  - intros db. unfold count_of.
    rewrite (phone_email_split (matching firstName lastName db)) at 1. lia.
  - apply visit_after.
  - destruct H as [Hc Hf]. unfold after_visit. rewrite (count_healthy _ _ _ Hc).
    cbn. destruct (remainingOffset v >=? _); [reflexivity|].
    destruct (remainingLimit v <=? 0) eqn:E; [reflexivity|]. lia.
  - destruct H as [Hc Hf]. rewrite after_visit_total. unfold counted.
    rewrite (count_healthy _ _ _ Hc). reflexivity.
Qed.

Lemma total_is_sum_of_counts_witness :
  Forall healthy [db3; db5; db2] /\
  exists h v,
    searchContactHandlesAcrossDatabases [db3; db5; db2] "Jo" None 1 0 = (Ok h, v) /\
    total h = sum (map (count_of "Jo" None) [db3; db5; db2]).
Proof.
  assert (H : Forall healthy [db3; db5; db2]) by (repeat constructor).
  split; [exact H|].
  exact (proj1 (total_is_sum_of_counts [db3; db5; db2] "Jo" None 1 0 H)).
Defined.

Lemma length_3 {A : Type} (l : list A) :
  Z.of_nat (List.length l) = 3 -> exists a b c, l = [a; b; c].
Proof.
  destruct l as [|a [|b [|c [|d l]]]]; cbn [List.length]; intros H; try lia.
  eauto.
Qed.

Lemma length_5 {A : Type} (l : list A) :
  Z.of_nat (List.length l) = 5 -> exists a b c d e, l = [a; b; c; d; e].
Proof.
  destruct l as [|a [|b [|c [|d [|e [|f l]]]]]]; cbn [List.length]; intros H; try lia.
  eauto 6.
Qed.

(** C1. With three databases that count 3, 5 and 2 matching rows, limit 4
    and offset 2: the first database is asked for its rows after the first two
    and gives one, the second is asked from its offset 0 and gives three, the
    third is counted and never fetched; four rows come back and the total
    is 10. *)
Theorem window_over_3_5_2 (d1 d2 d3 : Database) (firstName : string)
    (lastName : option string) :
  healthy d1 -> healthy d2 -> healthy d3 ->
  count_of firstName lastName d1 = 3 ->
  count_of firstName lastName d2 = 5 ->
  count_of firstName lastName d3 = 2 ->
  exists h v,
    searchContactHandlesAcrossDatabases [d1; d2; d3] firstName lastName 4 2
      = (Ok h, v) /\
    issued v = [CountQuery d1; FetchQuery d1 4 2;
                CountQuery d2; FetchQuery d2 3 0;
                CountQuery d3] /\
    fetchContactHandles d1 firstName lastName 4 2
      = Ok (skipn 2 (matching firstName lastName d1)) /\
    List.length (skipn 2 (matching firstName lastName d1)) = 1%nat /\
    fetchContactHandles d2 firstName lastName 3 0
      = Ok (firstn 3 (matching firstName lastName d2)) /\
    List.length (firstn 3 (matching firstName lastName d2)) = 3%nat /\
    rows h = (skipn 2 (matching firstName lastName d1) ++
              firstn 3 (matching firstName lastName d2))%list /\
    List.length (rows h) = 4%nat /\
    total h = 10.
Proof.
  intros [Hc1 Hf1] [Hc2 Hf2] [Hc3 Hf3] H1 H2 H3.
  destruct (length_3 _ H1) as (a1 & b1 & c1 & E1).
  destruct (length_5 _ H2) as (a2 & b2 & c2 & e2 & f2 & E2).
  rewrite search_handles_after. cbv zeta. eexists _, _. split; [reflexivity|].
  cbn [fold_left]. unfold after_visit.
  rewrite !count_healthy by assumption. rewrite H1, H2, H3.
  rewrite !fetch_healthy by assumption. rewrite E1, E2.
  vm_compute. repeat split.
Qed.

Lemma window_over_3_5_2_witness :
  exists h v,
    searchContactHandlesAcrossDatabases [db3; db5; db2] "Jo" None 4 2 = (Ok h, v) /\
    map handle (rows h) =
      ["c@example.org"; "a@example.org"; "b@example.org"; "c@example.org"] /\
    total h = 10.
Proof.
  destruct (window_over_3_5_2 db3 db5 db2 "Jo" None) as (h & v & E & _ & _ & _ & _ & _ & Er & _ & Et);
    try (split; reflexivity); try reflexivity.
  exists h, v. split; [exact E|]. split; [rewrite Er; reflexivity|exact Et].
Defined.

(** ** Failing databases *)

Section Failures.

Variables (fn : string) (ln : option string).

Lemma same_window_refl v : same_window v v.
Proof. repeat split. Qed.

Lemma after_visit_same_window v v' db :
  same_window v v' ->
  same_window (after_visit fn ln v db) (after_visit fn ln v' db).
Proof.
  intros (Ho & Hl & Hr). unfold after_visit.
  destruct (countContactHandles db fn ln) as [c|e]; cbn;
    [|repeat split; assumption].
  rewrite <- Ho, <- Hl.
  visit_branches v c; repeat split; cbn; congruence.
Qed.

Lemma loop_same_window dbs v v' :
  same_window v v' ->
  same_window (fold_left (after_visit fn ln) dbs v)
              (fold_left (after_visit fn ln) dbs v').
Proof.
  revert v v'. induction dbs as [|db dbs IH]; intros v v' H; [exact H|].
  cbn [fold_left]. apply IH, after_visit_same_window, H.
Qed.

Lemma count_failed db :
  count_error db <> None -> exists e, countContactHandles db fn ln = Err e.
Proof.
  unfold countContactHandles. destruct (count_error db) as [e|]; [eauto|congruence].
Qed.

Lemma fetch_failed db limit offset :
  fetch_error db <> None ->
  exists e, fetchContactHandles db fn ln limit offset = Err e.
Proof.
  unfold fetchContactHandles. destruct (fetch_error db) as [e|]; [eauto|congruence].
Qed.

Lemma length_limit_offset {A : Type} (limit offset : Z) (l : list A) :
  0 <= offset ->
  Z.of_nat (List.length (limit_offset limit offset l))
    <= Z.max 0 (Z.of_nat (List.length l) - offset).
Proof.
  intros Ho. unfold limit_offset.
  assert (Hs : Z.of_nat (List.length (skipn (Z.to_nat offset) l))
               <= Z.max 0 (Z.of_nat (List.length l) - offset)).
  { rewrite List.length_skipn. lia. }
  destruct (limit <? 0); [exact Hs|].
  rewrite List.length_firstn. lia.
Qed.

Lemma after_visit_surplus v db :
  0 <= remainingOffset v ->
  let v' := after_visit fn ln v db in
  0 <= remainingOffset v' <= remainingOffset v /\ surplus v <= surplus v'.
Proof.
  intros Ho. cbv zeta. unfold after_visit, surplus.
  unfold countContactHandles.
  destruct (count_error db) as [e|]; cbn; [lia|].
  set (c := Z.of_nat (List.length _)).
  destruct (remainingOffset v >=? c) eqn:E1; cbn; [lia|].
  destruct (remainingLimit v <=? 0) eqn:E2; cbn; [lia|].
  unfold fetchContactHandles.
  destruct (fetch_error db) as [e|]; cbn; [lia|].
  rewrite List.length_app.
  pose proof (length_limit_offset (remainingLimit v) (remainingOffset v)
                (select db (whereClause (buildWhereClause fn ln))
                   (params (buildWhereClause fn ln) ++
                    params (buildWhereClause fn ln))%list) Ho) as Hlen.
  fold c in Hlen. lia.
Qed.

Lemma loop_surplus dbs v :
  0 <= remainingOffset v ->
  let v' := fold_left (after_visit fn ln) dbs v in
  0 <= remainingOffset v' <= remainingOffset v /\ surplus v <= surplus v'.
Proof.
  revert v. induction dbs as [|db dbs IH]; intros v Ho; cbv zeta; cbn [fold_left].
  - lia.
  - destruct (after_visit_surplus v db Ho) as [H1 H2].
    destruct (IH (after_visit fn ln v db) (proj1 H1)) as [H3 H4]. lia.
Qed.

Lemma visit_throws_on_count db v :
  count_error db <> None -> exists e v', visit db fn ln v = (Err e, v').
Proof.
  intros H. destruct (count_failed db H) as [e He].
  unfold visit, bind, run_count. rewrite He. eauto.
Qed.

Lemma visit_throws_on_fetch db v :
  count_error db = None -> fetch_error db <> None ->
  remainingOffset v < count_of fn ln db -> 0 < remainingLimit v ->
  exists e v', visit db fn ln v = (Err e, v').
Proof.
  intros Hc Hf Ho Hl.
  destruct (fetch_failed db (remainingLimit v) (remainingOffset v) Hf)
    as [e He].
  unfold visit, bind, run_count, run_fetch, modify, get.
  rewrite (count_healthy fn ln _ Hc). cbn.
  destruct (remainingOffset v >=? count_of fn ln db) eqn:E1; [lia|].
  destruct (remainingLimit v <=? 0) eqn:E2; [lia|].
  rewrite He. eauto.
Qed.

End Failures.

Lemma search_by_name_ok dbs fn ln limit offset :
  searchContactsByName dbs fn ln limit offset =
  let v := fold_left (after_visit fn ln) dbs (initial limit offset) in
  Ok {| data := transformToContactInfo (results v);
        pagination := paginate (totalAcrossDbs v) limit offset |}.
Proof.
  unfold searchContactsByName. rewrite search_handles_after. reflexivity.
Qed.

(** C8. When the count statement of a database fails, or its fetch statement
    fails once it is reached, the exception is caught: the rows returned are
    those of the same call without that database, so the later databases are
    visited as before, and the call succeeds. A count that failed adds
    nothing to the total; a count that was added before the fetch failed
    stays in the total, which then exceeds the number of rows returned. *)
Theorem failing_database_is_skipped (pre post : list Database) (bad : Database)
    (firstName : string) (lastName : option string) (limit offset : Z) :
  let v := snd (search_loop pre firstName lastName (initial limit offset)) in
  count_error bad <> None \/
  (count_error bad = None /\ fetch_error bad <> None /\
   remainingOffset v < count_of firstName lastName bad /\ 0 < remainingLimit v) ->
  (exists e v', visit bad firstName lastName v = (Err e, v')) /\
  fst (try_catch (visit bad firstName lastName) v) = Ok tt /\
  exists h h',
    fst (searchContactHandlesAcrossDatabases (pre ++ bad :: post)
           firstName lastName limit offset) = Ok h /\
    fst (searchContactHandlesAcrossDatabases (pre ++ post)
           firstName lastName limit offset) = Ok h' /\
    rows h = rows h' /\
    (count_error bad <> None -> total h = total h') /\
    (count_error bad = None ->
       total h = total h' + count_of firstName lastName bad /\
       (0 <= offset -> Z.of_nat (List.length (rows h)) < total h)) /\
    exists r,
      searchContactsByName (pre ++ bad :: post) firstName lastName limit offset
        = Ok r /\
      data r = transformToContactInfo (rows h) /\
      p_total (pagination r) = total h.
Proof.
  cbv zeta. rewrite search_loop_after. cbn [snd].
  set (v0 := initial limit offset).
  set (v := fold_left (after_visit firstName lastName) pre v0).
  intros Hbad. split; [|split].
  - destruct Hbad as [Hc|(Hc & Hf & Ho & Hl)].
    + apply visit_throws_on_count, Hc.
    + apply visit_throws_on_fetch; assumption.
  - rewrite visit_after. reflexivity.
  - rewrite !search_handles_after, search_by_name_ok. cbv zeta. cbn [fst].
    fold v0. rewrite !fold_left_app. fold v. cbn [fold_left].
    eexists _, _. split; [reflexivity|]. split; [reflexivity|].
    cbn [rows total].
    assert (Hw : same_window (after_visit firstName lastName v bad) v).
    { unfold after_visit. destruct Hbad as [Hc|(Hc & Hf & Ho & Hl)].
      - destruct (count_failed firstName lastName bad Hc) as [e ->].
        repeat split.
      - rewrite (count_healthy _ _ _ Hc). cbn.
        destruct (remainingOffset v >=? count_of firstName lastName bad) eqn:E1;
          [lia|].
        destruct (remainingLimit v <=? 0) eqn:E2; [lia|].
        destruct (fetch_failed firstName lastName bad (remainingLimit v)
                    (remainingOffset v) Hf) as [e ->].
        repeat split. }
    pose proof (loop_same_window firstName lastName post _ _ Hw) as (_ & _ & Hr).
    split; [exact Hr|].
    split; [|split].
    + intros Hc. rewrite !loop_total, after_visit_total. unfold counted.
      destruct (count_failed firstName lastName bad Hc) as [e ->]. lia.
    + intros Hc. split.
      { rewrite !loop_total, after_visit_total. unfold counted at 1.
        rewrite (count_healthy _ _ _ Hc). lia. }
      intros Hoff.
      destruct Hbad as [Hc'|(_ & Hf & Ho & Hl)]; [congruence|].
      assert (H0 : 0 <= remainingOffset v0) by exact Hoff.
      destruct (loop_surplus firstName lastName pre v0 H0) as [Hro Hsu].
      fold v in Hro, Hsu.
      set (vb := after_visit firstName lastName v bad) in *.
      assert (Hvb : remainingOffset vb = remainingOffset v /\
                    surplus vb = surplus v + count_of firstName lastName bad).
      { destruct Hw as (Hwo & _ & Hwr).
        unfold surplus. rewrite Hwo, Hwr. split; [reflexivity|].
        unfold vb. rewrite after_visit_total. unfold counted.
        rewrite (count_healthy _ _ _ Hc). lia. }
      destruct Hvb as [Hvo Hvs].
      assert (H1 : 0 <= remainingOffset vb) by lia.
      destruct (loop_surplus firstName lastName post vb H1) as [Hro' Hsu'].
      unfold surplus in Hsu', Hsu, Hvs. cbn in Hsu, Hro. lia.
    + eexists. split; [reflexivity|]. cbn. split; reflexivity.
Qed.

Lemma failing_database_is_skipped_witness :
  exists h,
    fst (searchContactHandlesAcrossDatabases [db3; db5_fetch_fails; db2]
           "Jo" None 4 2) = Ok h /\
    Z.of_nat (List.length (rows h)) < total h.
Proof.
  pose proof (failing_database_is_skipped [db3] [db2] db5_fetch_fails
                "Jo" None 4 2) as H.
  cbv zeta in H.
  destruct H as (_ & _ & h & h' & E & _ & _ & _ & Hfetch & _).
  - right. split; [reflexivity|]. split; [discriminate|]. split; reflexivity.
  - exists h. split; [exact E|]. apply Hfetch; [reflexivity|discriminate].
Defined.

(** ** Pagination metadata *)

Lemma page_nonzero_limit total limit offset :
  limit <> 0 ->
  number_is (page (paginate total limit offset)) (offset / limit + 1).
Proof.
  intros Hl. unfold paginate, js_div. cbn [page].
  destruct (limit =? 0) eqn:E; [lia|].
  unfold Math_floor, of_int, js_add, number_is.
  rewrite inject_Z_plus, Zdiv_Qdiv. reflexivity.
Qed.

Lemma ceiling_div (a b : Z) :
  Qceiling (inject_Z a / inject_Z b) = - ((- a) / b).
Proof.
  unfold Qceiling. f_equal. rewrite Zdiv_Qdiv. apply Qfloor_comp.
  rewrite inject_Z_opp. unfold Qdiv. ring.
Qed.

Lemma totalPages_positive_limit total limit offset :
  0 < limit ->
  number_is (totalPages (paginate total limit offset)) (- ((- total) / limit)).
Proof.
  intros Hl. unfold paginate, js_div. cbn [totalPages].
  destruct (0 <? limit) eqn:E; [|lia].
  destruct (limit =? 0) eqn:E0; [lia|].
  unfold Math_ceil, of_int, number_is.
  rewrite ceiling_div. reflexivity.
Qed.

Lemma ceiling_bounds (a b : Z) :
  0 < b -> b * (- ((- a) / b) - 1) < a <= b * (- ((- a) / b)).
Proof.
  intros Hb.
  pose proof (Z.mul_div_le (- a) b Hb).
  pose proof (Z.mul_succ_div_gt (- a) b Hb). nia.
Qed.

Lemma well_formed_positive_limit total limit offset :
  0 <= total -> 0 <= offset -> 1 <= limit ->
  well_formed (paginate total limit offset).
Proof.
  intros Ht Ho Hl. split.
  - exists (offset / limit + 1). split; [apply page_nonzero_limit; lia|].
    pose proof (Z.div_pos offset limit Ho). lia.
  - exists (- ((- total) / limit)). split; [apply totalPages_positive_limit; lia|].
    pose proof (ceiling_bounds total limit). nia.
Qed.

(** C9 on the code. With the limit 0 the page is not a number at all (and is
    infinite for a positive offset), so the window is not well-formed,
    although the number of pages next to it is guarded against this limit. *)
Theorem page_undefined_for_limit_0 :
  exists r,
    searchContactsByName [] "test" None 0 0 = Ok r /\
    p_total (pagination r) = 0 /\
    totalPages (pagination r) = Finite 0 /\
    page (pagination r) = NaN /\
    ~ well_formed (pagination r) /\
    page (paginate 3 0 5) = PosInfinity /\
    ~ well_formed (paginate 3 0 5).
Proof.
  eexists. split; [reflexivity|]. cbn.
  repeat split; intros [[k [H _]] _]; exact H.
Qed.

(** ** Deduplication *)

Lemma truthy_nonempty (h : string) : truthy (Some h) = true <-> h <> "".
Proof. destruct h; cbn; split; congruence. Qed.

Lemma transform_loop_inv rows : forall seen results,
  (forall k, k ∈ seen <-> k ∈ key_of <$> results) ->
  NoDup (key_of <$> results) ->
  Forall (fun e => phone e <> "") results ->
  exists tail,
    transform_loop rows seen results = (results ++ tail)%list /\
    tail `sublist_of` (entry_of <$> rows) /\
    NoDup (key_of <$> (results ++ tail)%list) /\
    Forall (fun e => phone e <> "") (results ++ tail)%list /\
    (forall row, row ∈ rows -> row_handle row <> "" ->
       key_of (entry_of row) ∈ key_of <$> (results ++ tail)%list).
Proof.
  induction rows as [|row rows IH]; intros seen results Hseen Hnd Hne.
  - exists []. cbn [transform_loop]. rewrite app_nil_r. repeat split; auto.
    intros row Hin. apply elem_of_nil in Hin. contradiction.
  - cbn [transform_loop].
    destruct (truthy (Some (row_handle row))) eqn:Et; cbn [negb].
    2:{ destruct (IH seen results Hseen Hnd Hne) as (tail & E & Hs & Hn & Hf & Hall).
        exists tail. repeat split; auto.
        - rewrite fmap_cons. apply sublist_cons, Hs.
        - intros row' Hin Hh. apply elem_of_cons in Hin as [->|Hin]; [|auto].
          apply truthy_nonempty in Hh. congruence. }
    destruct (bool_decide (dedup_key (row_name row) (row_handle row) ∈ seen))
      eqn:Ed.
    { destruct (IH seen results Hseen Hnd Hne) as (tail & E & Hs & Hn & Hf & Hall).
      exists tail. repeat split; auto.
      - rewrite fmap_cons. apply sublist_cons, Hs.
      - intros row' Hin Hh. apply elem_of_cons in Hin as [->|Hin]; [|auto].
        apply bool_decide_eq_true in Ed. apply Hseen in Ed.
        rewrite fmap_app. apply elem_of_app. left. exact Ed. }
    apply bool_decide_eq_false in Ed.
    set (e := {| name := row_name row; phone := row_handle row |}).
    destruct (IH ({[ dedup_key (row_name row) (row_handle row) ]} ∪ seen)
                 (results ++ [e])%list) as (tail & E & Hs & Hn & Hf & Hall).
    + intros k. rewrite fmap_app, elem_of_app, elem_of_union, elem_of_singleton.
      cbn. rewrite list_elem_of_singleton, Hseen. unfold key_of at 2. cbn. tauto.
    + rewrite fmap_app. apply NoDup_app.
      repeat split; [exact Hnd| |apply NoDup_singleton].
      intros k Hk Hk'. apply list_elem_of_singleton in Hk'. subst k.
      apply Ed, Hseen, Hk.
    + apply Forall_app. split; [exact Hne|]. repeat constructor. cbn.
      apply truthy_nonempty, Et.
    + exists (e :: tail). rewrite <- app_assoc in E, Hn, Hf, Hall.
      cbn in E, Hn, Hf, Hall.
      repeat split; auto.
      * rewrite fmap_cons. apply sublist_skip, Hs.
      * intros row' Hin Hh. apply elem_of_cons in Hin as [->|Hin]; [|auto].
        rewrite fmap_app, fmap_cons. apply elem_of_app. right. left.
Qed.

(** What does hold of the transformation: its entries are entries of rows, in
    the order of the rows; none has an empty handle; no two have the same key,
    hence no two are equal; and every row with a handle has an entry with its
    key, so that rows with the same name and handle yield one entry. *)
Lemma transform_sound rows :
  transformToContactInfo rows `sublist_of` (entry_of <$> rows) /\
  (List.length (transformToContactInfo rows) <= List.length rows)%nat /\
  Forall (fun e => phone e <> "") (transformToContactInfo rows) /\
  NoDup (key_of <$> transformToContactInfo rows) /\
  NoDup (transformToContactInfo rows) /\
  (forall row, row ∈ rows -> row_handle row <> "" ->
     key_of (entry_of row) ∈ key_of <$> transformToContactInfo rows).
Proof.
  unfold transformToContactInfo.
  destruct (transform_loop_inv rows ∅ []) as (tail & E & Hs & Hn & Hf & Hall).
  - intros k. cbn. rewrite elem_of_empty, elem_of_nil. tauto.
  - constructor.
  - constructor.
  - cbn in E, Hn, Hf, Hall. rewrite E. repeat split; auto.
    + apply sublist_length in Hs. rewrite length_fmap in Hs. exact Hs.
    + eapply NoDup_fmap_1, Hn.
Qed.

(** C5 on the code. The two rows below have different names and different
    handles, neither handle is empty, and each alone yields its entry; yet
    their keys, the name and the handle joined by a bar, coincide, and the
    second row is dropped as a duplicate of the first. *)
Theorem distinct_pairs_collapse :
  (row_name row_bar_in_name, row_handle row_bar_in_name)
    <> (row_name row_bar_in_handle, row_handle row_bar_in_handle) /\
  dedup_key (row_name row_bar_in_name) (row_handle row_bar_in_name)
    = dedup_key (row_name row_bar_in_handle) (row_handle row_bar_in_handle) /\
  transformToContactInfo [row_bar_in_name]
    = [ {| name := "A|B"; phone := "c@example.org" |} ] /\
  transformToContactInfo [row_bar_in_handle]
    = [ {| name := "A"; phone := "B|c@example.org" |} ] /\
  transformToContactInfo [row_bar_in_name; row_bar_in_handle]
    = [ {| name := "A|B"; phone := "c@example.org" |} ].
Proof. repeat split; try discriminate; vm_compute; reflexivity. Qed.

(** * Further properties *)

(** ** The window over all the databases *)

Lemma window_nonpos {A : Type} (limit offset : Z) (l : list A) :
  limit <= 0 -> window limit offset l = [].
Proof.
  intros H. unfold window. replace (Z.to_nat limit) with 0%nat by lia. reflexivity.
Qed.

Lemma window_app_skip {A : Type} (limit offset : Z) (m rest : list A) :
  Z.of_nat (List.length m) <= offset ->
  window limit offset (m ++ rest)%list
    = window limit (offset - Z.of_nat (List.length m)) rest.
Proof.
  intros H. unfold window. rewrite List.skipn_app.
  rewrite (List.skipn_all2 m) by lia. cbn [app].
  do 2 f_equal. lia.
Qed.

Lemma window_app_fetch {A : Type} (limit offset : Z) (m rest : list A) :
  offset < Z.of_nat (List.length m) -> 0 < limit ->
  window limit offset (m ++ rest)%list
    = (limit_offset limit offset m ++
       window (limit - Z.of_nat (List.length (limit_offset limit offset m))) 0 rest)%list.
Proof.
  intros Ho Hl. unfold window, limit_offset.
  destruct (limit <? 0) eqn:E; [lia|].
  rewrite List.skipn_app, List.firstn_app.
  replace (Z.to_nat offset - List.length m)%nat with 0%nat by lia.
  cbn [skipn Z.to_nat]. f_equal. f_equal.
  rewrite List.length_firstn. lia.
Qed.

Lemma length_all_matching fn ln dbs :
  Z.of_nat (List.length (all_matching fn ln dbs)) = sum (map (count_of fn ln) dbs).
Proof.
  unfold all_matching. induction dbs as [|db dbs IH]; [reflexivity|].
  cbn [map concat sum fold_right]. rewrite List.length_app, Nat2Z.inj_add, IH.
  reflexivity.
Qed.

Section Window.

Variables (fn : string) (ln : option string).

Lemma after_visit_healthy v db :
  healthy db ->
  after_visit fn ln v db =
  let c := count_of fn ln db in
  let v1 := add_total c (log (CountQuery db) v) in
  if remainingOffset v >=? c then skip_database c v1
  else if remainingLimit v <=? 0 then v1
  else take_rows
         (limit_offset (remainingLimit v) (remainingOffset v) (matching fn ln db))
         (log (FetchQuery db (remainingLimit v) (remainingOffset v)) v1).
Proof.
  intros [Hc Hf]. unfold after_visit.
  rewrite (count_healthy fn ln db Hc). cbn [add_total log remainingOffset remainingLimit].
  rewrite (fetch_healthy fn ln db _ _ Hf). reflexivity.
Qed.

Lemma loop_window dbs :
  Forall healthy dbs -> forall v,
  results (fold_left (after_visit fn ln) dbs v) =
  (results v ++
   window (remainingLimit v) (remainingOffset v) (all_matching fn ln dbs))%list.
Proof.
  induction 1 as [|db dbs Hdb _ IH]; intros v.
  - cbn. unfold window. rewrite List.skipn_nil, List.firstn_nil, app_nil_r.
    reflexivity.
  - cbn [fold_left]. rewrite IH, (after_visit_healthy v db Hdb). cbv zeta.
    unfold all_matching. cbn [map concat]. fold (all_matching fn ln dbs).
    unfold count_of.
    destruct (remainingOffset v >=? _) eqn:E1.
    + cbn [skip_database add_total log results remainingLimit remainingOffset].
      rewrite window_app_skip by lia. reflexivity.
    + destruct (remainingLimit v <=? 0) eqn:E2.
      * cbn [add_total log results remainingLimit remainingOffset].
        rewrite !window_nonpos by lia. reflexivity.
      * cbn [take_rows add_total log results remainingLimit remainingOffset].
        rewrite window_app_fetch by lia. rewrite <- app_assoc. reflexivity.
Qed.

End Window.

Lemma rows_of_window dbs fn ln limit offset :
  Forall healthy dbs ->
  rows_of dbs fn ln limit offset = window limit offset (all_matching fn ln dbs).
Proof.
  intros H. unfold rows_of. rewrite search_handles_after. cbv zeta. cbn [snd].
  rewrite (loop_window fn ln dbs H). reflexivity.
Qed.

Lemma total_of_sum dbs fn ln limit offset :
  total_of dbs fn ln limit offset = sum (map (counted fn ln) dbs).
Proof.
  unfold total_of. rewrite search_handles_after. cbv zeta. cbn [snd].
  rewrite loop_total. reflexivity.
Qed.

Lemma search_handles_rows_total dbs fn ln limit offset :
  fst (searchContactHandlesAcrossDatabases dbs fn ln limit offset) =
  Ok {| rows := rows_of dbs fn ln limit offset;
        total := total_of dbs fn ln limit offset |}.
Proof.
  unfold rows_of, total_of. rewrite search_handles_after. reflexivity.
Qed.

(** X1. When no query fails, the rows returned are the global window: of all
    the matching rows of all the databases, in the order of the databases, the
    first [offset] are skipped and the next [limit] are taken. *)
Theorem rows_are_the_global_window (databases : list Database)
    (firstName : string) (lastName : option string) (limit offset : Z) :
  Forall healthy databases ->
  exists h,
    fst (searchContactHandlesAcrossDatabases databases firstName lastName
           limit offset) = Ok h /\
    rows h = firstn (Z.to_nat limit)
               (skipn (Z.to_nat offset)
                  (concat (map (matching firstName lastName) databases))).
Proof.
  intros H. eexists. split; [apply search_handles_rows_total|].
  cbn [rows]. apply rows_of_window, H.
Qed.

Lemma rows_are_the_global_window_witness :
  exists h,
    fst (searchContactHandlesAcrossDatabases [db3; db5; db2] "Jo" None 4 2) = Ok h /\
    rows h = firstn 4 (skipn 2 (sample_rows 3 ++ sample_rows 5 ++ sample_rows 2)%list).
Proof.
  apply (rows_are_the_global_window [db3; db5; db2] "Jo" None 4 2).
  repeat constructor.
Defined.

Lemma window_add {A : Type} (l1 l2 offset : Z) (l : list A) :
  0 <= offset -> 0 <= l1 -> 0 <= l2 ->
  (window l1 offset l ++ window l2 (offset + l1) l)%list = window (l1 + l2) offset l.
Proof.
  intros Ho H1 H2. unfold window.
  replace (Z.to_nat (offset + l1)) with (Z.to_nat l1 + Z.to_nat offset)%nat by lia.
  replace (Z.to_nat (l1 + l2)) with (Z.to_nat l1 + Z.to_nat l2)%nat by lia.
  rewrite <- List.skipn_skipn.
  generalize (skipn (Z.to_nat offset) l) as k.
  generalize (Z.to_nat l1) as n. generalize (Z.to_nat l2) as m. clear.
  intros m n. induction n as [|n IH]; intros k; [reflexivity|].
  destruct k as [|a k]; cbn.
  - rewrite List.firstn_nil. reflexivity.
  - f_equal. apply IH.
Qed.

Lemma window_nil_iff {A : Type} (limit offset : Z) (l : list A) :
  0 < limit -> 0 <= offset ->
  window limit offset l <> [] <-> offset < Z.of_nat (List.length l).
Proof.
  intros Hl Ho. unfold window.
  assert (E : List.length (firstn (Z.to_nat limit) (skipn (Z.to_nat offset) l))
              = Nat.min (Z.to_nat limit) (List.length l - Z.to_nat offset)).
  { rewrite List.length_firstn, List.length_skipn. reflexivity. }
  split.
  - intros H. destruct (firstn _ _) eqn:F; [congruence|].
    cbn [List.length] in E. lia.
  - intros H F. rewrite F in E. cbn [List.length] in E. lia.
Qed.

(** X2. Successive pages tile the rows: when no query fails, the page of
    [l1] rows at [offset] followed by the page of [l2] rows at [offset + l1] is
    the page of [l1 + l2] rows at [offset]; no row is skipped and none comes
    twice. *)
Theorem successive_pages_tile (databases : list Database)
    (firstName : string) (lastName : option string) (l1 l2 offset : Z) :
  Forall healthy databases -> 0 <= offset -> 0 <= l1 -> 0 <= l2 ->
  (results (snd (searchContactHandlesAcrossDatabases databases firstName
                   lastName l1 offset)) ++
   results (snd (searchContactHandlesAcrossDatabases databases firstName
                   lastName l2 (offset + l1))))%list
  = results (snd (searchContactHandlesAcrossDatabases databases firstName
                    lastName (l1 + l2) offset)).
Proof.
  intros H Ho H1 H2.
  pose proof (rows_of_window databases firstName lastName) as W.
  unfold rows_of in W. rewrite !W by assumption.
  apply window_add; assumption.
Qed.

Lemma successive_pages_tile_witness :
  (results (snd (searchContactHandlesAcrossDatabases [db3; db5; db2] "Jo" None 2 2)) ++
   results (snd (searchContactHandlesAcrossDatabases [db3; db5; db2] "Jo" None 3 4)))%list
  = results (snd (searchContactHandlesAcrossDatabases [db3; db5; db2] "Jo" None 5 2)).
Proof.
  apply (successive_pages_tile [db3; db5; db2] "Jo" None 2 3 2);
    [repeat constructor | lia | lia | lia].
Defined.

(** X3. [hasMore] is exact when no query fails: for a positive limit and an
    offset from 0 on, it is true exactly when the next page, at
    [offset + limit], has a row. *)
Theorem hasMore_iff_next_page (databases : list Database)
    (firstName : string) (lastName : option string) (limit offset : Z) :
  Forall healthy databases -> 0 < limit -> 0 <= offset ->
  exists r,
    searchContactsByName databases firstName lastName limit offset = Ok r /\
    (hasMore (pagination r) = true <->
     results (snd (searchContactHandlesAcrossDatabases databases firstName
                     lastName limit (offset + limit))) <> []).
Proof.
  intros H Hl Ho. rewrite search_by_name_ok. cbv zeta.
  eexists. split; [reflexivity|]. cbn [pagination hasMore paginate].
  pose proof (rows_of_window databases firstName lastName limit (offset + limit) H) as W.
  unfold rows_of in W. rewrite W.
  rewrite window_nil_iff by lia. rewrite length_all_matching.
  rewrite loop_total, (counted_healthy _ _ _ H). cbn [initial totalAcrossDbs].
  rewrite Z.ltb_lt. lia.
Qed.

Lemma hasMore_iff_next_page_witness :
  exists r,
    searchContactsByName [db3; db5; db2] "Jo" None 4 2 = Ok r /\
    hasMore (pagination r) = true.
Proof.
  destruct (hasMore_iff_next_page [db3; db5; db2] "Jo" None 4 2)
    as (r & E & Hm); [repeat constructor | lia | lia |].
  exists r. split; [exact E|]. apply Hm. vm_compute. discriminate.
Defined.

(** X4. The total does not depend on the page asked for: whatever the limits
    and the offsets, and whichever queries fail, two searches over the same
    databases report the same total, the sum of the counts that succeed. *)
Theorem total_independent_of_page (databases : list Database)
    (firstName : string) (lastName : option string) (limit offset limit' offset' : Z) :
  totalAcrossDbs (snd (searchContactHandlesAcrossDatabases databases firstName
                         lastName limit offset))
  = totalAcrossDbs (snd (searchContactHandlesAcrossDatabases databases firstName
                           lastName limit' offset')) /\
  totalAcrossDbs (snd (searchContactHandlesAcrossDatabases databases firstName
                         lastName limit offset))
  = sum (map (fun db => match countContactHandles db firstName lastName with
                        | Ok c => c
                        | Err _ => 0
                        end) databases).
Proof.
  pose proof (total_of_sum databases firstName lastName) as T.
  unfold total_of in T. rewrite !T. split; reflexivity.
Qed.

(** ** What the loop never does *)

Section Discipline.

Variables (fn : string) (ln : option string).

Lemma length_limit_offset_limit {A : Type} (limit offset : Z) (l : list A) :
  0 <= limit -> Z.of_nat (List.length (limit_offset limit offset l)) <= limit.
Proof.
  intros H. unfold limit_offset. destruct (limit <? 0) eqn:E; [lia|].
  rewrite List.length_firstn. lia.
Qed.

Lemma after_visit_budget v db :
  Z.of_nat (List.length (results (after_visit fn ln v db)))
    + Z.max 0 (remainingLimit (after_visit fn ln v db))
  <= Z.of_nat (List.length (results v)) + Z.max 0 (remainingLimit v).
Proof.
  unfold after_visit.
  destruct (countContactHandles db fn ln) as [c|e]; cbn; [|lia].
  destruct (remainingOffset v >=? c) eqn:E1; cbn; [lia|].
  destruct (remainingLimit v <=? 0) eqn:E2; cbn; [lia|].
  unfold fetchContactHandles. destruct (fetch_error db); cbn; [lia|].
  rewrite List.length_app.
  match goal with
  | |- context [limit_offset ?l ?o ?m] =>
      pose proof (length_limit_offset_limit l o m)
  end. lia.
Qed.

Lemma loop_budget dbs v :
  Z.of_nat (List.length (results (fold_left (after_visit fn ln) dbs v)))
  <= Z.of_nat (List.length (results v)) + Z.max 0 (remainingLimit v).
Proof.
  revert v. induction dbs as [|db dbs IH]; intros v; cbn [fold_left]; [lia|].
  pose proof (IH (after_visit fn ln v db)).
  pose proof (after_visit_budget v db). lia.
Qed.

Lemma after_visit_issued v db :
  exists qs, issued (after_visit fn ln v db) = (issued v ++ qs)%list /\
             visit_statements db qs.
Proof.
  unfold after_visit, visit_statements.
  destruct (countContactHandles db fn ln) as [c|e]; cbn; [|eauto].
  destruct (remainingOffset v >=? c) eqn:E1; cbn; [eauto|].
  destruct (remainingLimit v <=? 0) eqn:E2; cbn; [eauto|].
  exists [CountQuery db; FetchQuery db (remainingLimit v) (remainingOffset v)].
  split.
  - destruct (fetchContactHandles db fn ln _ _); cbn; rewrite <- app_assoc;
      reflexivity.
  - right. exists (remainingLimit v), (remainingOffset v). split; [lia|reflexivity].
Qed.

Lemma loop_issued dbs v :
  exists chunks,
    issued (fold_left (after_visit fn ln) dbs v) = (issued v ++ concat chunks)%list /\
    Forall2 visit_statements dbs chunks.
Proof.
  revert v. induction dbs as [|db dbs IH]; intros v; cbn [fold_left].
  - exists []. cbn. rewrite app_nil_r. split; [reflexivity|constructor].
  - destruct (after_visit_issued v db) as (qs & E & Hq).
    destruct (IH (after_visit fn ln v db)) as (chunks & E' & Hc).
    exists (qs :: chunks). split; [|constructor; assumption].
    rewrite E', E. cbn [concat]. rewrite <- app_assoc. reflexivity.
Qed.

Lemma loop_beyond_total dbs v :
  sum (map (counted fn ln) dbs) <= remainingOffset v ->
  results (fold_left (after_visit fn ln) dbs v) = results v /\
  List.filter is_fetch (issued (fold_left (after_visit fn ln) dbs v))
    = List.filter is_fetch (issued v).
Proof.
  revert v. induction dbs as [|db dbs IH]; intros v; cbn [fold_left map sum fold_right].
  - intros _. split; reflexivity.
  - fold (sum (map (counted fn ln) dbs)). intros H.
    pose proof (counted_nonneg fn ln db) as Hc.
    assert (Hs : 0 <= sum (map (counted fn ln) dbs)).
    { clear. induction dbs as [|d l IHl]; cbn; [lia|].
      pose proof (counted_nonneg fn ln d). unfold sum in IHl. lia. }
    assert (Hv : remainingOffset (after_visit fn ln v db)
                   = remainingOffset v - counted fn ln db /\
                 results (after_visit fn ln v db) = results v /\
                 List.filter is_fetch (issued (after_visit fn ln v db))
                   = List.filter is_fetch (issued v)).
    { unfold after_visit, counted in *.
      destruct (countContactHandles db fn ln) as [c|e]; cbn.
      - destruct (remainingOffset v >=? c) eqn:E1; [|lia]. cbn.
        rewrite List.filter_app. cbn. rewrite app_nil_r. repeat split.
      - rewrite List.filter_app. cbn. rewrite app_nil_r. repeat split. lia. }
    destruct Hv as (Ho & Hr & Hi).
    destruct (IH (after_visit fn ln v db)) as [IH1 IH2]; [lia|].
    rewrite IH1, IH2, Hr, Hi. split; reflexivity.
Qed.

End Discipline.

(** X5. Never more than [limit] rows: whatever the databases hold and
    whichever queries fail, the rows gathered, and so the entries returned,
    are at most [limit], and none for a limit of 0 or less. *)
Theorem never_more_than_limit (databases : list Database)
    (firstName : string) (lastName : option string) (limit offset : Z) :
  exists r h,
    searchContactsByName databases firstName lastName limit offset = Ok r /\
    fst (searchContactHandlesAcrossDatabases databases firstName lastName
           limit offset) = Ok h /\
    Z.of_nat (List.length (rows h)) <= Z.max 0 limit /\
    Z.of_nat (List.length (data r)) <= Z.max 0 limit.
Proof.
  rewrite search_by_name_ok, search_handles_after. cbv zeta.
  eexists _, _. split; [reflexivity|]. split; [reflexivity|].
  cbn [rows data fst].
  pose proof (loop_budget firstName lastName databases (initial limit offset)) as B.
  cbn [initial results remainingLimit List.length] in B.
  split; [lia|].
  destruct (transform_sound
              (results (fold_left (after_visit firstName lastName) databases
                          (initial limit offset)))) as (_ & L & _).
  lia.
Qed.

(** X6. One count for every database and at most one fetch: the statements
    issued are, database after database in the order of the list, the count
    of the database alone or followed by one fetch from the same database,
    and a fetch always asks for a positive number of rows. This holds
    whichever queries fail. *)
Theorem statements_per_database (databases : list Database)
    (firstName : string) (lastName : option string) (limit offset : Z) :
  exists chunks,
    issued (snd (searchContactHandlesAcrossDatabases databases firstName
                   lastName limit offset)) = concat chunks /\
    Forall2 (fun db qs =>
               qs = [CountQuery db] \/
               exists l o, 0 < l /\ qs = [CountQuery db; FetchQuery db l o])
            databases chunks.
Proof.
  rewrite search_handles_after. cbv zeta. cbn [snd].
  destruct (loop_issued firstName lastName databases (initial limit offset))
    as (chunks & E & H).
  exists chunks. split; [exact E|exact H].
Qed.

(** X7. An offset at or beyond the total fetches nothing: when the offset is
    at least the total reported, no fetch statement is issued at all and no
    row is returned. *)
Theorem offset_beyond_total (databases : list Database)
    (firstName : string) (lastName : option string) (limit offset : Z) :
  let v := snd (searchContactHandlesAcrossDatabases databases firstName
                  lastName limit offset) in
  totalAcrossDbs v <= offset ->
  results v = [] /\ List.filter is_fetch (issued v) = [] /\
  exists r, searchContactsByName databases firstName lastName limit offset = Ok r /\
            data r = [] /\ (0 <= limit -> hasMore (pagination r) = false).
Proof.
  cbv zeta. rewrite search_by_name_ok, search_handles_after. cbv zeta. cbn [snd].
  rewrite loop_total. cbn [initial totalAcrossDbs]. intros H.
  destruct (loop_beyond_total firstName lastName databases (initial limit offset))
    as [Hr Hi]; [cbn; lia|].
  cbn [initial results issued] in Hr, Hi. fold (initial limit offset) in Hr, Hi.
  split; [exact Hr|]. split; [exact Hi|].
  eexists. split; [reflexivity|]. cbn [data pagination hasMore paginate].
  rewrite Hr. split; [reflexivity|].
  intros Hl. apply Z.ltb_ge. lia.
Qed.

Lemma offset_beyond_total_witness :
  results (snd (searchContactHandlesAcrossDatabases [db3; db5; db2] "Jo" None 4 10))
    = [] /\
  List.filter is_fetch
    (issued (snd (searchContactHandlesAcrossDatabases [db3; db5; db2] "Jo" None 4 10)))
    = [].
Proof.
  pose proof (offset_beyond_total [db3; db5; db2] "Jo" None 4 10) as H.
  cbv zeta in H. destruct H as (H1 & H2 & _); [vm_compute; discriminate|].
  split; assumption.
Defined.

(** ** Page numbers *)

(** X8. For a positive limit, a total and an offset from 0 on, the page and
    the number of pages are integers, the page is at least 1, it is at most the
    number of pages when the offset lies before the total, and strictly below
    it when [hasMore] is true; there are no pages exactly when the total
    is 0. *)
Theorem page_within_totalPages (total limit offset : Z) :
  0 < limit -> 0 <= total -> 0 <= offset ->
  let p := paginate total limit offset in
  exists k n,
    number_is (page p) k /\ number_is (totalPages p) n /\
    1 <= k /\ 0 <= n /\
    (offset < total -> k <= n) /\
    (hasMore p = true -> k < n) /\
    (n = 0 <-> total = 0).
Proof.
  intros Hl Ht Ho p. subst p.
  exists (offset / limit + 1), (- ((- total) / limit)).
  pose proof (ceiling_bounds total limit Hl) as Hc.
  pose proof (Z.mul_div_le offset limit Hl) as Hf1.
  pose proof (Z.mul_succ_div_gt offset limit Hl) as Hf2.
  pose proof (Z.div_pos offset limit Ho Hl) as Hf3.
  split; [apply page_nonzero_limit; lia|].
  split; [apply totalPages_positive_limit; lia|].
  cbn [hasMore paginate]. rewrite Z.ltb_lt.
  repeat split; try nia.
Qed.

Lemma page_within_totalPages_witness :
  exists k n,
    number_is (page (paginate 10 4 2)) k /\
    number_is (totalPages (paginate 10 4 2)) n /\ k < n.
Proof.
  destruct (page_within_totalPages 10 4 2) as (k & n & Hk & Hn & _ & _ & _ & Hm & _);
    [lia | lia | lia |].
  exists k, n. split; [exact Hk|]. split; [exact Hn|]. apply Hm. reflexivity.
Defined.

(** ** Names and handles are never empty *)

Lemma normalize_empty_iff anyPhone :
  normalizePhoneNumber anyPhone = "" <-> anyPhone = "".
Proof.
  rewrite normalize_unfold. cbv zeta.
  destruct (startsWith (keep_chars kept anyPhone) "+") eqn:E1.
  { destruct (keep_chars kept anyPhone) eqn:K; [discriminate|].
    split; [discriminate|]. intros ->. discriminate. }
  destruct (Nat.eqb _ 10) eqn:E2.
  { split; [discriminate|]. intros ->. discriminate. }
  destruct (_ && _)%bool eqn:E3.
  { split; [discriminate|]. intros ->. discriminate. }
  destruct (keep_chars kept anyPhone) eqn:K; cbn [truthy].
  - tauto.
  - split; [discriminate|]. intros ->. discriminate.
Qed.

Lemma row_handle_empty_iff row : row_handle row = "" <-> handle row = "".
Proof.
  unfold row_handle. destruct (handle_type row); [apply normalize_empty_iff|tauto].
Qed.

Lemma buildFullName_not_empty f l o : buildFullName f l o <> "".
Proof.
  unfold buildFullName, push_if_truthy.
  destruct f as [[|c1 f]|], l as [[|c2 l]|], o as [[|c3 o]|]; discriminate.
Qed.

(** X9. A derived name is never empty, and a normalized phone number is
    empty only when the number given is empty. *)
Theorem name_and_number_not_empty :
  (forall firstName lastName organization,
      buildFullName firstName lastName organization <> "") /\
  (forall anyPhone, normalizePhoneNumber anyPhone = "" <-> anyPhone = "").
Proof. split; [apply buildFullName_not_empty|apply normalize_empty_iff]. Qed.

(** X10. Normalization only looks at the digits and the [+] signs: two
    numbers that differ in other characters only, and have a digit or a [+],
    normalize to the same string, which consists of digits and [+] signs
    only. *)
Theorem normalize_ignores_formatting (p q : string) :
  keep_chars (fun c => is_digit c || is_plus c)%bool p
    = keep_chars (fun c => is_digit c || is_plus c)%bool q ->
  keep_chars (fun c => is_digit c || is_plus c)%bool p <> "" ->
  normalizePhoneNumber p = normalizePhoneNumber q /\
  all_chars (fun c => is_digit c || is_plus c)%bool (normalizePhoneNumber p) = true.
Proof.
  fold kept. intros E Hne.
  assert (Hp : forall x, keep_chars kept x = keep_chars kept p ->
                         normalizePhoneNumber x =
                         let c := keep_chars kept p in
                         if startsWith c "+" then c
                         else if Nat.eqb (String.length c) 10 then "+1" ++ c
                         else if (Nat.eqb (String.length c) 11 && startsWith c "1")%bool
                              then "+" ++ c
                         else c).
  { intros x Ex. rewrite normalize_unfold. cbv zeta. rewrite Ex.
    destruct (keep_chars kept p) eqn:K; [congruence|]. reflexivity. }
  rewrite (Hp p eq_refl), (Hp q (eq_sym E)). split; [reflexivity|].
  cbv zeta. pose proof (keep_chars_all kept p) as Hall.
  destruct (startsWith _ "+"); [exact Hall|].
  destruct (Nat.eqb _ 10); [exact Hall|].
  destruct (_ && _)%bool; exact Hall.
Qed.

Lemma normalize_ignores_formatting_witness :
  normalizePhoneNumber "(555) 123-4567" = normalizePhoneNumber "555.123.4567".
Proof.
  apply (normalize_ignores_formatting "(555) 123-4567" "555.123.4567");
    [reflexivity | discriminate].
Defined.

(** ** Deduplication, continued *)

Lemma elem_of_seen_of k res : k ∈ seen_of res <-> k ∈ key_of <$> res.
Proof. unfold seen_of. apply elem_of_list_to_set. Qed.

Lemma seen_of_snoc res e : {[ key_of e ]} ∪ seen_of res = seen_of (res ++ [e])%list.
Proof.
  unfold seen_of. apply set_eq. intros k.
  rewrite fmap_app, elem_of_union, !elem_of_list_to_set, elem_of_app,
    elem_of_singleton.
  cbn. rewrite list_elem_of_singleton. tauto.
Qed.

Lemma map_fmap {A B : Type} (f : A -> B) (l : list A) : map f l = f <$> l.
Proof. induction l as [|a l IH]; [reflexivity|]. cbn. rewrite IH. reflexivity. Qed.

Lemma transform_loop_app l1 l2 : forall res,
  transform_loop (l1 ++ l2)%list (seen_of res) res =
  transform_loop l2 (seen_of (transform_loop l1 (seen_of res) res))
    (transform_loop l1 (seen_of res) res).
Proof.
  induction l1 as [|row l1 IH]; intros res; [reflexivity|].
  cbn [app transform_loop].
  destruct (negb (truthy (Some (row_handle row)))); [apply IH|].
  destruct (bool_decide _); [apply IH|].
  change (dedup_key (row_name row) (row_handle row))
    with (key_of {| name := row_name row; phone := row_handle row |}).
  rewrite seen_of_snoc. apply IH.
Qed.

Lemma transform_loop_distinct rows : forall res,
  NoDup (key_of <$> (res ++ (entry_of <$> rows))%list) ->
  Forall (fun row => row_handle row <> "") rows ->
  transform_loop rows (seen_of res) res = (res ++ (entry_of <$> rows))%list.
Proof.
  induction rows as [|row rows IH]; intros res Hnd Hh.
  - cbn. rewrite app_nil_r. reflexivity.
  - inversion Hh as [|? ? Hrow Hrest]; subst.
    cbn [transform_loop].
    apply truthy_nonempty in Hrow. rewrite Hrow. cbn [negb].
    rewrite fmap_cons in Hnd.
    assert (Hnot : dedup_key (row_name row) (row_handle row) ∉ seen_of res).
    { rewrite elem_of_seen_of. intros Hin.
      rewrite fmap_app in Hnd. apply NoDup_app in Hnd as (_ & Hd & _).
      apply (Hd _ Hin). rewrite fmap_cons. left. }
    rewrite bool_decide_eq_false_2 by exact Hnot.
    change (dedup_key (row_name row) (row_handle row))
      with (key_of {| name := row_name row; phone := row_handle row |}).
    rewrite seen_of_snoc, IH.
    + rewrite <- app_assoc. reflexivity.
    + rewrite <- app_assoc. exact Hnd.
    + exact Hrest.
Qed.

Lemma transform_loop_filter rows : forall seen res,
  transform_loop (List.filter has_handle rows) seen res = transform_loop rows seen res.
Proof.
  induction rows as [|row rows IH]; intros seen res; [reflexivity|].
  cbn [List.filter]. unfold has_handle at 1.
  destruct (String.eqb (handle row) "") eqn:E; cbn [negb].
  - apply String.eqb_eq in E. apply row_handle_empty_iff in E.
    cbn [transform_loop]. rewrite E. cbn. apply IH.
  - cbn [transform_loop].
    destruct (negb (truthy (Some (row_handle row)))); [apply IH|].
    destruct (bool_decide _); apply IH.
Qed.

Lemma transform_loop_absorb rows : forall seen res,
  (forall row, row ∈ rows ->
     row_handle row = "" \/ dedup_key (row_name row) (row_handle row) ∈ seen) ->
  transform_loop rows seen res = res.
Proof.
  induction rows as [|row rows IH]; intros seen res H; [reflexivity|].
  cbn [transform_loop].
  assert (Hrest : forall r, r ∈ rows ->
            row_handle r = "" \/ dedup_key (row_name r) (row_handle r) ∈ seen).
  { intros r Hr. apply H. right. exact Hr. }
  destruct (H row) as [E|Hin]; [left|..].
  - rewrite E. cbn. apply IH, Hrest.
  - destruct (negb (truthy (Some (row_handle row)))); [apply IH, Hrest|].
    rewrite bool_decide_eq_true_2 by exact Hin. apply IH, Hrest.
Qed.

(** X11. Nothing is lost without cause: when every row has a handle and no
    two rows have the same key (name, bar, normalized handle), the entries
    returned are those of the rows, one for each row and in their order. *)
Theorem distinct_rows_all_kept (rows : list ContactHandleRow) :
  Forall (fun row => handle row <> "") rows ->
  NoDup (map (fun row => dedup_key (row_name row) (row_handle row)) rows) ->
  transformToContactInfo rows
    = map (fun row => {| name := row_name row; phone := row_handle row |}) rows.
Proof.
  intros Hh Hnd. unfold transformToContactInfo.
  change (∅ : gset string) with (seen_of []).
  rewrite transform_loop_distinct.
  - cbn [app]. symmetry. apply map_fmap.
  - cbn [app]. rewrite <- list_fmap_compose. rewrite map_fmap in Hnd. exact Hnd.
  - eapply Forall_impl; [exact Hh|]. intros row Hr Hrow.
    apply Hr, row_handle_empty_iff, Hrow.
Qed.

Lemma distinct_rows_all_kept_witness :
  transformToContactInfo (sample_rows 3)
    = [ {| name := "Jo"; phone := "a@example.org" |};
        {| name := "Jo"; phone := "b@example.org" |};
        {| name := "Jo"; phone := "c@example.org" |} ].
Proof.
  apply (distinct_rows_all_kept (sample_rows 3)).
  - repeat constructor; discriminate.
  - vm_compute. repeat constructor; cbn; intros H;
      repeat (apply elem_of_cons in H as [H|H]; [discriminate|]);
      apply elem_of_nil in H; exact H.
Defined.

(** X12. Rows whose stored handle is empty have no effect: removing them from
    the input leaves the entries returned unchanged. This holds for phone
    rows too, since a phone number normalizes to the empty string only when it
    is empty. *)
Theorem empty_handles_have_no_effect (rows : list ContactHandleRow) :
  transformToContactInfo
    (List.filter (fun row => negb (String.eqb (handle row) "")) rows)
  = transformToContactInfo rows.
Proof. unfold transformToContactInfo. apply (transform_loop_filter rows). Qed.

(** X13. Repeated rows add nothing: rows appended to the input that each
    repeat the derived name and the normalized handle of a row already there
    leave the entries returned unchanged. *)
Theorem repeated_rows_add_nothing (rows more : list ContactHandleRow) :
  (forall row, In row more ->
     exists row', In row' rows /\ row_name row' = row_name row /\
                  row_handle row' = row_handle row) ->
  transformToContactInfo (rows ++ more)%list = transformToContactInfo rows.
Proof.
  intros H. unfold transformToContactInfo.
  change (∅ : gset string) with (seen_of []).
  rewrite transform_loop_app. apply transform_loop_absorb.
  intros row Hin. apply list_elem_of_In in Hin.
  destruct (H row Hin) as (row' & Hin' & En & Eh).
  destruct (String.eqb (row_handle row) "") eqn:E.
  - left. apply String.eqb_eq, E.
  - right. apply String.eqb_neq in E. rewrite elem_of_seen_of.
    destruct (transform_sound rows) as (_ & _ & _ & _ & _ & Hall).
    rewrite <- En, <- Eh. apply (Hall row').
    + apply list_elem_of_In, Hin'.
    + rewrite Eh. exact E.
Qed.

Lemma repeated_rows_add_nothing_witness :
  transformToContactInfo (sample_rows 3 ++ sample_rows 2)%list
    = transformToContactInfo (sample_rows 3).
Proof.
  apply (repeated_rows_add_nothing (sample_rows 3) (sample_rows 2)).
  intros row [<-|[<-|[]]].
  - eexists. split; [left; reflexivity|]. split; reflexivity.
  - eexists. split; [right; left; reflexivity|]. split; reflexivity.
Defined.

(** ** Discovery *)

Lemma open_sources_until_failure env base : forall dirs dbs,
  snd (open_sources env base dirs dbs) =
  (dbs ++ open_until_failure env
            (List.filter
               (fun path => match statSync_isFile env path with
                            | Ok true => true
                            | _ => false
                            end)
               (map (fun d => path_join env [base; d; "AddressBook-v22.abcddb"]) dirs)))%list.
Proof.
  induction dirs as [|d dirs IH]; intros dbs; cbn [open_sources map List.filter].
  - cbn. rewrite app_nil_r. reflexivity.
  - destruct (statSync_isFile env _) as [[|]|e] eqn:E; cbn [negb].
    + cbn [open_until_failure].
      destruct (new_Database env _) as [db|e'].
      * rewrite IH, <- app_assoc. reflexivity.
      * cbn. rewrite app_nil_r. reflexivity.
    + apply IH.
    + apply IH.
Qed.

Lemma open_databases_until_failure env :
  openContactsDatabases env = open_until_failure env (database_paths env).
Proof.
  unfold openContactsDatabases, database_paths.
  destruct (readDirSync env (addressBookBasePath env)) as [entries|e];
    [|reflexivity].
  rewrite open_sources_until_failure, List.map_map. reflexivity.
Qed.

(** X14. When every database file found can be opened, the databases
    returned are exactly those files opened, one for each directory of the
    Sources directory that holds a regular database file, in the order of the
    listing; entries that are not directories, directories without the file
    and files that are not regular are passed over. *)
Theorem discovery_opens_every_database_file (env : Env) :
  (forall path, In path (database_paths env) ->
     exists db, new_Database env path = Ok db) ->
  map Ok (openContactsDatabases env) = map (new_Database env) (database_paths env).
Proof.
  rewrite open_databases_until_failure.
  induction (database_paths env) as [|path paths IH]; intros H; [reflexivity|].
  cbn [open_until_failure map].
  destruct (H path) as [db E]; [left; reflexivity|].
  rewrite E. cbn [map]. f_equal. apply IH. intros p Hp. apply H. right. exact Hp.
Qed.

Lemma discovery_opens_every_database_file_witness :
  openContactsDatabases sample_env = [db3; db2].
Proof.
  pose proof (discovery_opens_every_database_file sample_env) as H.
  assert (E : map (@Ok Database) (openContactsDatabases sample_env)
              = map Ok [db3; db2]).
  { apply H. intros path Hp. vm_compute in Hp.
    destruct Hp as [<-|[<-|[]]]; eexists; vm_compute; reflexivity. }
  revert E. generalize (openContactsDatabases sample_env) as l.
  intros [|a [|b [|c l]]] E; cbn in E; try discriminate.
  injection E as -> ->. reflexivity.
Defined.

Lemma open_sources_exit env base : forall dirs dbs,
  fst (open_sources env base dirs dbs) =
  first_open_failure env
    (List.filter
       (fun path => match statSync_isFile env path with
                    | Ok true => true
                    | _ => false
                    end)
       (map (fun d => path_join env [base; d; "AddressBook-v22.abcddb"]) dirs)).
Proof.
  induction dirs as [|d dirs IH]; intros dbs; cbn [open_sources map List.filter].
  - reflexivity.
  - destruct (statSync_isFile env _) as [[|]|e] eqn:E; cbn [negb].
    + cbn [first_open_failure].
      destruct (new_Database env _) as [db|e']; [apply IH|reflexivity].
    + apply IH.
    + apply IH.
Qed.

(** X15. A database file that cannot be opened ends the discovery: the loop
    over the directories is left with the exception of that file, and the
    databases returned are exactly those opened from the database files
    before it; the files after it contribute no database, whether they could
    be opened or not. *)
Theorem discovery_stops_at_open_failure (env : Env) (before after : list string)
    (bad message : string) :
  database_paths env = (before ++ bad :: after)%list ->
  (forall path, In path before -> exists db, new_Database env path = Ok db) ->
  new_Database env bad = Err message ->
  map Ok (openContactsDatabases env) = map (new_Database env) before /\
  exists entries,
    readDirSync env (addressBookBasePath env) = Ok entries /\
    fst (open_sources env (addressBookBasePath env)
           (map entry_name (List.filter isDirectory entries)) [])
      = Err message.
Proof.
  intros Hp H Hbad. split.
  - rewrite open_databases_until_failure, Hp. clear Hp.
    induction before as [|path paths IH]; cbn [app open_until_failure map].
    + rewrite Hbad. reflexivity.
    + destruct (H path) as [db E]; [left; reflexivity|].
      rewrite E. cbn [map]. f_equal. apply IH. intros p Hin. apply H. right.
      exact Hin.
  - unfold database_paths in Hp.
    destruct (readDirSync env (addressBookBasePath env)) as [entries|e];
      [|destruct before; discriminate].
    exists entries. split; [reflexivity|].
    rewrite open_sources_exit, List.map_map, Hp. clear Hp.
    induction before as [|path paths IH]; cbn [app first_open_failure].
    + rewrite Hbad. reflexivity.
    + destruct (H path) as [db E]; [left; reflexivity|].
      rewrite E. apply IH. intros p Hin. apply H. right. exact Hin.
Qed.

(** X16. When the Sources directory cannot be read, no database is opened,
    and a search over the databases found returns no entry, the total 0 and,
    for a limit and an offset from 0 on, no further page. *)
Theorem discovery_without_sources (env : Env) (message : string)
    (firstName : string) (lastName : option string) (limit offset : Z) :
  readDirSync env (addressBookBasePath env) = Err message ->
  openContactsDatabases env = [] /\
  exists r,
    searchContactsByName (openContactsDatabases env) firstName lastName
      limit offset = Ok r /\
    data r = [] /\ p_total (pagination r) = 0 /\
    (0 <= limit -> 0 <= offset -> hasMore (pagination r) = false).
Proof.
  intros E. unfold openContactsDatabases. rewrite E. split; [reflexivity|].
  eexists. split; [reflexivity|]. cbn. repeat split.
  intros Hl Ho. apply Z.ltb_ge. lia.
Qed.

Lemma discovery_stops_at_open_failure_witness :
  map Ok (openContactsDatabases sample_env_corrupt) = [Ok db3].
Proof.
  apply (discovery_stops_at_open_failure sample_env_corrupt
           [sample_path "A"] [sample_path "C"] (sample_path "B")
           "file is not a database").
  - reflexivity.
  - intros path [<-|[]]. exists db3. reflexivity.
  - reflexivity.
Defined.

Lemma discovery_without_sources_witness :
  openContactsDatabases sample_env_unreadable = [].
Proof.
  apply (discovery_without_sources sample_env_unreadable "Permission denied"
           "Jo" None 50 0).
  reflexivity.
Defined.

(** ** The statements *)

Lemma placeholders_app a b :
  placeholders (a ++ b) = (placeholders a + placeholders b)%nat.
Proof.
  induction a as [|c a IH]; [reflexivity|].
  simpl. rewrite IH. lia.
Qed.

Lemma where_clause_cases firstName lastName :
  let w := buildWhereClause firstName lastName in
  (whereClause w = anyNameClause /\ List.length (params w) = 0%nat) \/
  (whereClause w = bothNamesClause /\ List.length (params w) = 2%nat) \/
  (whereClause w = anyFieldClause /\ List.length (params w) = 4%nat).
Proof.
  cbv zeta. unfold buildWhereClause.
  destruct (String.eqb firstName "" && negb (truthy lastName))%bool; [auto|].
  destruct (if_truthy lastName); auto.
Qed.

(** X17. Every placeholder gets its value: the statement that counts and the
    statement that fetches each bind exactly as many values as their text has
    placeholders, whatever the terms of the search; the fetch binds the limit
    and the offset last, in that order. *)
Theorem statements_bind_every_placeholder (firstName : string)
    (lastName : option string) (limit offset : Z) :
  placeholders (fst (count_statement firstName lastName))
    = List.length (snd (count_statement firstName lastName)) /\
  placeholders (fst (fetch_statement firstName lastName limit offset))
    = List.length (snd (fetch_statement firstName lastName limit offset)) /\
  exists patterns,
    snd (count_statement firstName lastName) = map SqlText (patterns ++ patterns) /\
    snd (fetch_statement firstName lastName limit offset)
      = (map SqlText (patterns ++ patterns) ++ [SqlInt limit; SqlInt offset])%list.
Proof.
  unfold count_statement, fetch_statement. cbn [fst snd].
  unfold countQuery, dataQuery.
  rewrite !placeholders_app, !List.length_app, !List.length_map, !List.length_app.
  destruct (where_clause_cases firstName lastName) as [[-> ->]|[[-> ->]|[-> ->]]];
    (split; [reflexivity|]); (split; [reflexivity|]);
    eexists; split; reflexivity.
Qed.

(** X18. The terms of a search never enter the text of a statement: the
    texts are those of a search with fixed terms that are empty where the
    given ones are, so there are three texts in all, and the terms reach the
    database as bound values only. *)
Theorem statement_text_independent_of_terms (firstName : string)
    (lastName : option string) (limit offset : Z) :
  let '(fixedFirst, fixedLast) := shape_only firstName lastName in
  fst (count_statement firstName lastName)
    = fst (count_statement fixedFirst fixedLast) /\
  fst (fetch_statement firstName lastName limit offset)
    = fst (fetch_statement fixedFirst fixedLast 0 0).
Proof.
  unfold shape_only, count_statement, fetch_statement, buildWhereClause.
  cbn [fst].
  destruct firstName as [|c f], lastName as [[|d l]|]; split; reflexivity.
Qed.

(** ** The tool *)

Lemma sum_counted_nonneg fn ln dbs : 0 <= sum (map (counted fn ln) dbs).
Proof.
  induction dbs as [|d l IH]; cbn; [lia|].
  pose proof (counted_nonneg fn ln d). unfold sum in IH. lia.
Qed.

(** X19. What the schema of [search_contacts] admits is safe for the
    search: the first name is not empty, so the clause that matches every
    contact is never built; the limit is between 1 and 200 (50 when missing)
    and the offset at least 0 (0 when missing), so the search returns a result
    rather than an error text, its page is an integer from 1 on, its number of
    pages an integer from 0 on, and it has at most [limit] entries. *)
Theorem schema_guards_the_search (contactsDatabases : list Database)
    (raw : RawArgs) (args : Args) :
  SearchContactsSchema raw = Some args ->
  arg_firstName args <> "" /\
  1 <= arg_limit args <= 200 /\ 0 <= arg_offset args /\
  (raw_limit raw = None -> arg_limit args = 50) /\
  (raw_offset raw = None -> arg_offset args = 0) /\
  whereClause (buildWhereClause (arg_firstName args) (arg_lastName args))
    <> anyNameClause /\
  exists r,
    search_contacts contactsDatabases args = inl r /\
    well_formed (pagination r) /\
    Z.of_nat (List.length (data r)) <= arg_limit args.
Proof.
  unfold SearchContactsSchema.
  destruct (raw_firstName raw) as [f|]; [|discriminate].
  destruct (_ && _)%bool eqn:E; [|discriminate].
  intros [= <-]. cbn [arg_firstName arg_lastName arg_limit arg_offset].
  apply andb_prop in E as [E E4]. apply andb_prop in E as [E E3].
  apply andb_prop in E as [E1 E2].
  apply Nat.leb_le in E1. apply Z.leb_le in E2, E3, E4.
  assert (Hf : f <> "") by (destruct f; [cbn in E1; lia|discriminate]).
  split; [exact Hf|]. split; [lia|]. split; [exact E4|].
  split; [intros ->; reflexivity|]. split; [intros ->; reflexivity|].
  split.
  { unfold buildWhereClause. destruct f as [|c f]; [congruence|]. cbn.
    destruct (if_truthy (raw_lastName raw)); discriminate. }
  unfold search_contacts. cbn [arg_firstName arg_lastName arg_limit arg_offset].
  rewrite search_by_name_ok. cbv zeta. eexists. split; [reflexivity|].
  cbn [pagination data]. split.
  - apply well_formed_positive_limit; [|exact E4|exact E2].
    rewrite loop_total. cbn [initial totalAcrossDbs].
    pose proof (sum_counted_nonneg f (raw_lastName raw) contactsDatabases). lia.
  - match goal with
    | |- context [transformToContactInfo ?rs] =>
        destruct (transform_sound rs) as (_ & L & _)
    end.
    match goal with
    | |- context [fold_left ?g ?dbs ?v] =>
        pose proof (loop_budget f (raw_lastName raw) dbs v) as B
    end.
    cbn [initial results remainingLimit List.length] in B. lia.
Qed.

Lemma schema_guards_the_search_witness :
  exists r,
    search_contacts [db3; db5; db2]
      {| arg_firstName := "Jo"; arg_lastName := None;
         arg_limit := 50; arg_offset := 0 |} = inl r /\
    well_formed (pagination r).
Proof.
  destruct (schema_guards_the_search [db3; db5; db2]
              {| raw_firstName := Some "Jo"; raw_lastName := None;
                 raw_limit := None; raw_offset := None |}
              {| arg_firstName := "Jo"; arg_lastName := None;
                 arg_limit := 50; arg_offset := 0 |})
    as (_ & _ & _ & _ & _ & _ & r & E & W & _); [reflexivity|].
  exists r. split; assumption.
Defined.

(** X20. The entries of a result are sound, whichever queries fail: each is
    the derived name and the normalized handle of a row gathered, the entries
    come in the order of the rows, no entry occurs twice, and no entry has an
    empty name or an empty handle. *)
Theorem entries_of_a_result (databases : list Database)
    (firstName : string) (lastName : option string) (limit offset : Z) :
  exists r h,
    searchContactsByName databases firstName lastName limit offset = Ok r /\
    fst (searchContactHandlesAcrossDatabases databases firstName lastName
           limit offset) = Ok h /\
    data r `sublist_of`
      map (fun row => {| name := row_name row; phone := row_handle row |}) (rows h) /\
    NoDup (data r) /\
    (forall e, In e (data r) -> name e <> "" /\ phone e <> "").
Proof.
  rewrite search_by_name_ok, search_handles_after. cbv zeta.
  eexists _, _. split; [reflexivity|]. split; [reflexivity|]. cbn [data rows fst].
  match goal with
  | |- context [transformToContactInfo ?rs] =>
      destruct (transform_sound rs) as (Hs & _ & Hf & _ & Hn & _);
      set (gathered := rs) in *
  end.
  split; [rewrite map_fmap; exact Hs|]. split; [exact Hn|].
  intros e He. apply list_elem_of_In in He. split.
  - pose proof (elem_of_sublist _ _ _ He Hs) as Hin.
    apply list_elem_of_fmap in Hin as (row & -> & _).
    apply buildFullName_not_empty.
  - rewrite Forall_forall in Hf. apply Hf. exact He.
Qed.

(** ** The metadata as the machine computes them *)

Lemma pow2_pos e : (0 < pow2 e)%Q.
Proof. apply Qpower_0_lt. reflexivity. Qed.

Lemma pow2_add a b : (pow2 (a + b) == pow2 a * pow2 b)%Q.
Proof. apply Qpower_plus. discriminate. Qed.

Lemma pow2_Z e : 0 <= e -> (pow2 e == inject_Z (2 ^ e))%Q.
Proof. intros H. unfold pow2. rewrite (Zpower_Qpower 2 e H). reflexivity. Qed.

Lemma Qfloor_unique (y : Q) (n : Z) :
  (inject_Z n <= y)%Q -> (y < inject_Z (n + 1))%Q -> Qfloor y = n.
Proof.
  intros H1 H2.
  pose proof (Qfloor_le y) as F1. pose proof (Qlt_floor y) as F2.
  assert (A : (inject_Z n < inject_Z (Qfloor y + 1))%Q) by lra.
  assert (B : (inject_Z (Qfloor y) < inject_Z (n + 1))%Q) by lra.
  rewrite <- Zlt_Qlt in A, B. lia.
Qed.

Lemma Qceiling_unique (y : Q) (n : Z) :
  (inject_Z (n - 1) < y)%Q -> (y <= inject_Z n)%Q -> Qceiling y = n.
Proof.
  intros H1 H2. unfold Qceiling.
  rewrite (Qfloor_unique (- y) (- n)); [lia| |].
  - rewrite inject_Z_opp. lra.
  - replace (- n + 1) with (- (n - 1)) by lia. rewrite inject_Z_opp. lra.
Qed.

Lemma round_half_even_error (m : Q) :
  (m - (1 # 2) <= inject_Z (round_half_even m) <= m + (1 # 2))%Q.
Proof.
  unfold round_half_even.
  pose proof (Qfloor_le m) as F1. pose proof (Qlt_floor m) as F2.
  rewrite inject_Z_plus in F2. change (inject_Z 1) with 1%Q in F2.
  destruct (Qcompare_spec (m - inject_Z (Qfloor m)) (1 # 2)) as [E|E|E].
  - destruct (Z.even (Qfloor m));
      [|rewrite inject_Z_plus; change (inject_Z 1) with 1%Q]; lra.
  - lra.
  - rewrite inject_Z_plus. change (inject_Z 1) with 1%Q. lra.
Qed.

Lemma round_half_even_integer (m : Q) (k : Z) :
  (m == inject_Z k)%Q -> round_half_even m = k.
Proof.
  intros E. unfold round_half_even.
  assert (F : Qfloor m = k) by (rewrite E; apply Qfloor_Z).
  rewrite F.
  destruct (Qcompare_spec (m - inject_Z k) (1 # 2)) as [H|H|H]; try lra.
  reflexivity.
Qed.

Lemma pow2_le a b : a <= b -> (pow2 a <= pow2 b)%Q.
Proof. intros H. apply Qpower_le_compat_l; [exact H|]. discriminate. Qed.

Lemma ulp_exponent_low (x : Q) :
  (0 < x)%Q ->
  (pow2 52 * pow2 (ulp_exponent x) <= x)%Q \/ ulp_exponent x = -1074.
Proof.
  intros Hx. unfold ulp_exponent.
  set (e0 := Z.log2 (Qnum x) - Z.log2 (Z.pos (Qden x)) - 53).
  assert (A : (pow2 52 * pow2 e0 < x)%Q).
  { destruct x as [n d]. cbn [Qnum Qden] in e0.
    assert (Hn : 0 < n) by (unfold Qlt in Hx; cbn in Hx; lia).
    pose proof (Z.log2_spec n Hn) as [L1 _].
    pose proof (Z.log2_spec (Z.pos d) (Pos2Z.is_pos d)) as [_ L2].
    pose proof (Z.log2_nonneg n) as N1.
    pose proof (Z.log2_nonneg (Z.pos d)) as N2.
    set (ln := Z.log2 n) in *. set (ld := Z.log2 (Z.pos d)) in *.
    assert (E : (pow2 52 * pow2 e0 * inject_Z (2 ^ Z.succ ld) == inject_Z (2 ^ ln))%Q).
    { rewrite <- !pow2_Z by lia. rewrite <- !pow2_add.
      replace (52 + e0 + Z.succ ld) with ln by (unfold e0; lia). reflexivity. }
    assert (P : (0 < pow2 52 * pow2 e0)%Q).
    { pose proof (pow2_pos 52). pose proof (pow2_pos e0). nra. }
    rewrite Zle_Qle in L1. rewrite Zlt_Qlt in L2, Hn.
    change (inject_Z 0) with 0%Q in Hn.
    assert (X : ((n # d) * inject_Z (Z.pos d) == inject_Z n)%Q).
    { rewrite (Qmake_Qdiv n d). field. discriminate. }
    assert (D : (0 < inject_Z (Z.pos d))%Q) by reflexivity.
    set (P0 := (pow2 52 * pow2 e0)%Q) in *.
    set (T := inject_Z (2 ^ Z.succ ld)) in *.
    set (Dq := inject_Z (Z.pos d)) in *.
    set (xq := (n # d)%Q) in *.
    destruct (Qlt_le_dec P0 xq) as [|C]; [assumption|exfalso].
    assert (C1 : (xq * Dq <= P0 * Dq)%Q) by nra.
    assert (C2 : (P0 * Dq < P0 * T)%Q) by nra.
    nra. }
  destruct (Qle_bool (pow2 53) (x / pow2 e0)) eqn:B.
  - apply Qle_bool_iff in B.
    destruct (Z.max_spec (e0 + 1) (-1074)) as [[_ ->]|[_ ->]]; [right; reflexivity|].
    left. rewrite pow2_add.
    pose proof (pow2_pos e0) as Pe.
    assert (Bx : (pow2 53 * pow2 e0 <= x)%Q).
    { assert (Q1 : (x / pow2 e0 * pow2 e0 == x)%Q) by (field; lra).
      set (q := (x / pow2 e0)%Q) in *. nra. }
    change (pow2 52) with (4503599627370496%Q).
    change (pow2 53) with (9007199254740992%Q) in Bx.
    change (pow2 1) with 2%Q. nra.
  - destruct (Z.max_spec e0 (-1074)) as [[_ ->]|[_ ->]]; [right; reflexivity|].
    left. apply Qlt_le_weak, A.
Qed.

Lemma pow2_1024 : (pow2 1024 == 16777216 * pow2 1000)%Q.
Proof. change 16777216%Q with (pow2 24). rewrite <- pow2_add. reflexivity. Qed.

Lemma no_overflow (y : Q) :
  (y <= 2 * pow2 1000 + 1)%Q -> Qle_bool (pow2 1024) y = false.
Proof.
  intros H. destruct (Qle_bool (pow2 1024) y) eqn:E; [|reflexivity].
  apply Qle_bool_iff in E. rewrite pow2_1024 in E.
  pose proof (pow2_le 0 1000 ltac:(lia)) as P. change (pow2 0) with 1%Q in P.
  lra.
Qed.

Lemma round_pos_error (x : Q) :
  (0 < x)%Q -> (x <= pow2 1000)%Q ->
  exists y e,
    round_pos x = Finite y /\
    (x - (1 # 2) * pow2 e <= y <= x + (1 # 2) * pow2 e)%Q /\
    ((pow2 52 * pow2 e <= x)%Q \/ e = -1074).
Proof.
  intros Hx Hb. unfold round_pos.
  set (e := ulp_exponent x).
  pose proof (ulp_exponent_low x Hx) as L. fold e in L.
  pose proof (pow2_pos e) as Pe.
  pose proof (round_half_even_error (x / pow2 e)) as [R1 R2].
  set (r := inject_Z (round_half_even (x / pow2 e))) in *.
  assert (M : (x / pow2 e * pow2 e == x)%Q) by (field; lra).
  set (m := (x / pow2 e)%Q) in *.
  assert (B : (x - (1 # 2) * pow2 e <= r * pow2 e <= x + (1 # 2) * pow2 e)%Q).
  { assert (H1 : ((m - (1 # 2)) * pow2 e <= r * pow2 e)%Q)
      by (apply Qmult_le_compat_r; lra).
    assert (H2 : (r * pow2 e <= (m + (1 # 2)) * pow2 e)%Q)
      by (apply Qmult_le_compat_r; lra).
    clearbody r m. set (pe := pow2 e) in *. clearbody pe. split; lra. }
  assert (S : ((1 # 2) * pow2 e <= x + 1)%Q).
  { destruct L as [L| ->].
    - change (pow2 52) with 4503599627370496%Q in L. nra.
    - pose proof (pow2_le (-1074) 0 ltac:(lia)) as P.
      change (pow2 0) with 1%Q in P. lra. }
  rewrite no_overflow by lra.
  exists (r * pow2 e)%Q, e. split; [reflexivity|]. split; [exact B|exact L].
Qed.

Lemma round_pos_integer (x : Q) (z : Z) :
  (x == inject_Z z)%Q -> 0 < z <= 9007199254740992 ->
  exists y, round_pos x = Finite y /\ (y == inject_Z z)%Q.
Proof.
  intros E [Z1 Z2]. unfold round_pos.
  assert (Hx : (0 < x)%Q).
  { rewrite E. change 0%Q with (inject_Z 0). rewrite <- Zlt_Qlt. exact Z1. }
  set (e := ulp_exponent x).
  pose proof (ulp_exponent_low x Hx) as L. fold e in L.
  pose proof (pow2_pos e) as Pe.
  assert (M : (x / pow2 e * pow2 e == x)%Q) by (field; lra).
  assert (Zq : (inject_Z z <= 9007199254740992)%Q).
  { change 9007199254740992%Q with (inject_Z 9007199254740992).
    rewrite <- Zle_Qle. exact Z2. }
  assert (K : exists k, (x / pow2 e == inject_Z k)%Q).
  { destruct (Z_le_gt_dec e 0) as [He|He].
    - exists (z * 2 ^ (- e)).
      rewrite inject_Z_mult, <- pow2_Z by lia.
      assert (N : (pow2 (- e) == / pow2 e)%Q) by (unfold pow2; apply Qpower_opp).
      rewrite N, E. reflexivity.
    - destruct L as [L|L]; [|lia].
      change (pow2 52) with 4503599627370496%Q in L.
      assert (He1 : e = 1).
      { destruct (Z_le_gt_dec 2 e) as [H2|H2]; [exfalso|lia].
        pose proof (pow2_le 2 e H2) as P. change (pow2 2) with 4%Q in P.
        rewrite E in L. set (pe := pow2 e) in *. clearbody pe. lra. }
      exists 4503599627370496. rewrite He1 in *.
      change (pow2 1) with 2%Q in *.
      assert (Ez : (inject_Z z == 9007199254740992)%Q).
      { rewrite E in L. lra. }
      rewrite E, Ez. reflexivity. }
  destruct K as [k Ek].
  rewrite (round_half_even_integer _ _ Ek).
  assert (Y : (inject_Z k * pow2 e == inject_Z z)%Q).
  { rewrite <- Ek, M. exact E. }
  rewrite no_overflow.
  - eexists. split; [reflexivity|exact Y].
  - rewrite Y. pose proof (pow2_le 53 1000 ltac:(lia)) as P.
    change (pow2 53) with 9007199254740992%Q in P.
    set (p := pow2 1000) in *. clearbody p. lra.
Qed.

Lemma round_double_integer (x : Q) (z : Z) :
  (x == inject_Z z)%Q -> - 9007199254740992 <= z <= 9007199254740992 ->
  exists y, round_double x = Finite y /\ (y == inject_Z z)%Q.
Proof.
  intros E Hz. unfold round_double.
  destruct (Qcompare_spec x 0) as [H|H|H].
  - exists 0%Q. split; [reflexivity|]. rewrite <- E, H. reflexivity.
  - assert (Hn : z < 0).
    { rewrite E in H. change 0%Q with (inject_Z 0) in H.
      rewrite <- Zlt_Qlt in H. exact H. }
    destruct (round_pos_integer (- x) (- z)) as (y & Ey & Hy).
    + rewrite E, inject_Z_opp. reflexivity.
    + lia.
    + rewrite Ey. exists (- y)%Q. split; [reflexivity|].
      rewrite Hy, inject_Z_opp. ring.
  - assert (Hp : 0 < z).
    { rewrite E in H. change 0%Q with (inject_Z 0) in H.
      rewrite <- Zlt_Qlt in H. exact H. }
    apply round_pos_integer; [exact E|lia].
Qed.

Lemma round_double_error (x : Q) :
  ~ (x == 0)%Q -> (- pow2 1000 <= x <= pow2 1000)%Q ->
  exists y e,
    round_double x = Finite y /\
    (x - (1 # 2) * pow2 e <= y <= x + (1 # 2) * pow2 e)%Q /\
    ((pow2 52 * pow2 e <= x)%Q \/ (pow2 52 * pow2 e <= - x)%Q \/ e = -1074).
Proof.
  intros Hx [B1 B2]. unfold round_double.
  destruct (Qcompare_spec x 0) as [H|H|H]; [contradiction| |].
  - destruct (round_pos_error (- x)) as (y & e & Ey & [E1 E2] & L);
      [lra | lra |].
    rewrite Ey. exists (- y)%Q, e. split; [reflexivity|].
    split; [split; lra|]. destruct L as [L|L]; auto.
  - destruct (round_pos_error x) as (y & e & Ey & [E1 E2] & L);
      [lra | lra |].
    exists y, e. split; [exact Ey|]. split; [split; lra|].
    destruct L as [L|L]; auto.
Qed.

Lemma pow2_tiny : (pow2 (-1074) * 9007199254740992 <= 1)%Q.
Proof.
  pose proof (pow2_le (-1074) (-53) ltac:(lia)) as P.
  assert (I : (pow2 (-53) * 9007199254740992 == 1)%Q) by reflexivity.
  set (p := pow2 (-1074)) in *. set (p' := pow2 (-53)) in *.
  clearbody p p'. lra.
Qed.

Lemma rounded_quotient (a b : Z) :
  - 9007199254740992 < a < 9007199254740992 ->
  b <> 0 -> - 9007199254740992 < b < 9007199254740992 ->
  exists y,
    round_double (inject_Z a / inject_Z b) = Finite y /\
    Qfloor y = Qfloor (inject_Z a / inject_Z b) /\
    Qceiling y = Qceiling (inject_Z a / inject_Z b) /\
    - 9007199254740992 <= Qfloor (inject_Z a / inject_Z b) < 9007199254740992.
Proof.
  intros Ha Hb0 Hb.
  set (q := (inject_Z a / inject_Z b)%Q).
  set (c := Z.abs b). set (a' := Z.sgn b * a).
  assert (Hc : 1 <= c < 9007199254740992) by (unfold c; lia).
  assert (Ha' : - 9007199254740992 < a' < 9007199254740992) by (unfold a'; lia).
  assert (Q1 : (q * inject_Z c == inject_Z a')%Q).
  { unfold q, c, a'. destruct b as [|p|p]; [congruence| |].
    - change (Z.abs (Z.pos p)) with (Z.pos p).
      change (Z.sgn (Z.pos p)) with 1. rewrite Z.mul_1_l. field. discriminate.
    - change (Z.abs (Z.neg p)) with (Z.pos p).
      change (Z.sgn (Z.neg p)) with (-1).
      change (Z.neg p) with (- Z.pos p). rewrite inject_Z_opp, inject_Z_mult.
      change (inject_Z (-1)) with (- (1))%Q. field. discriminate. }
  assert (C1 : (1 <= inject_Z c)%Q).
  { change 1%Q with (inject_Z 1). rewrite <- Zle_Qle. lia. }
  assert (C2 : (inject_Z c < 9007199254740992)%Q).
  { change 9007199254740992%Q with (inject_Z 9007199254740992).
    rewrite <- Zlt_Qlt. lia. }
  assert (A1 : (- 9007199254740992 < inject_Z a' < 9007199254740992)%Q).
  { change 9007199254740992%Q with (inject_Z 9007199254740992).
    change (-9007199254740992)%Q with (inject_Z (-9007199254740992)).
    rewrite <- !Zlt_Qlt. lia. }
  set (n := Qfloor q).
  pose proof (Qfloor_le q) as F1. pose proof (Qlt_floor q) as F2.
  fold n in F1, F2. rewrite inject_Z_plus in F2.
  change (inject_Z 1) with 1%Q in F2.
  set (C := inject_Z c) in *. set (A := inject_Z a') in *.
  assert (Qb : (- 9007199254740992 < q < 9007199254740992)%Q).
  { clearbody q C A. split; nra. }
  assert (Nb : - 9007199254740992 <= n < 9007199254740992).
  { assert (N1 : (inject_Z n < inject_Z 9007199254740992)%Q).
    { change (inject_Z 9007199254740992) with 9007199254740992%Q.
      clearbody q. lra. }
    assert (N2 : (inject_Z (-9007199254740992 - 1) < inject_Z n)%Q).
    { change (inject_Z (-9007199254740992 - 1)) with (-9007199254740993)%Q.
      clearbody q. lra. }
    rewrite <- Zlt_Qlt in N1, N2. lia. }
  destruct (Qeq_dec q (inject_Z n)) as [E|NE].
  - destruct (round_double_integer q n E) as (y & Ey & Hy).
    { assert (N : (- 9007199254740992 < inject_Z n < 9007199254740992)%Q)
        by (rewrite <- E; exact Qb).
      change 9007199254740992%Q with (inject_Z 9007199254740992) in N.
      change (-9007199254740992)%Q with (inject_Z (-9007199254740992)) in N.
      rewrite <- !Zlt_Qlt in N. lia. }
    exists y. split; [exact Ey|]. rewrite Hy. split; [|split].
    + rewrite Qfloor_Z. reflexivity.
    + rewrite Qceiling_Z. fold q. rewrite E, Qceiling_Z. reflexivity.
    + exact Nb.
  - assert (G1 : (1 <= (q - inject_Z n) * C)%Q).
    { assert (G : ((q - inject_Z n) * C == inject_Z (a' - n * c))%Q).
      { unfold Z.sub. rewrite inject_Z_plus, inject_Z_opp, inject_Z_mult.
        fold C A. rewrite <- Q1. ring. }
      assert (P : (0 < (q - inject_Z n) * C)%Q).
      { assert (q - inject_Z n > 0)%Q by (clearbody q; lra).
        clearbody q C. nra. }
      rewrite G in *. change 0%Q with (inject_Z 0) in P.
      change 1%Q with (inject_Z 1). rewrite <- Zlt_Qlt in P. rewrite <- Zle_Qle.
      lia. }
    assert (G2 : (1 <= (inject_Z n + 1 - q) * C)%Q).
    { assert (G : ((inject_Z n + 1 - q) * C == inject_Z (n * c + c - a'))%Q).
      { unfold Z.sub. rewrite !inject_Z_plus, inject_Z_opp, inject_Z_mult.
        fold C A. rewrite <- Q1. ring. }
      assert (P : (0 < (inject_Z n + 1 - q) * C)%Q) by (clearbody q C; nra).
      rewrite G in *. change 0%Q with (inject_Z 0) in P.
      change 1%Q with (inject_Z 1). rewrite <- Zlt_Qlt in P. rewrite <- Zle_Qle.
      lia. }
    assert (Hq0 : ~ (q == 0)%Q).
    { intros Z0. apply NE. rewrite Z0.
      assert (n = 0) by (unfold n; rewrite Z0; reflexivity).
      subst n. rewrite H. reflexivity. }
    destruct (round_double_error q Hq0) as (y & e & Ey & [E1 E2] & L).
    { pose proof (pow2_le 53 1000 ltac:(lia)) as P.
      change (pow2 53) with 9007199254740992%Q in P.
      set (p := pow2 1000) in *. clearbody p q. split; lra. }
    assert (S : ((1 # 2) * pow2 e * C < 1)%Q).
    { pose proof (pow2_pos e) as Pe.
      destruct L as [L|[L|L]].
      - change (pow2 52) with 4503599627370496%Q in L.
        set (pe := pow2 e) in *. clearbody pe q C A. nra.
      - change (pow2 52) with 4503599627370496%Q in L.
        set (pe := pow2 e) in *. clearbody pe q C A. nra.
      - subst e. pose proof pow2_tiny as T.
        set (pe := pow2 (-1074)) in *. clearbody pe q C A. nra. }
    exists y. split; [exact Ey|].
    assert (Y : (inject_Z n < y < inject_Z n + 1)%Q).
    { set (pe := pow2 e) in *. clearbody pe q C A. split; nra. }
    split; [|split]; [| |exact Nb].
    + change (Qfloor y = n). apply Qfloor_unique; [lra|].
      rewrite inject_Z_plus. change (inject_Z 1) with 1%Q. lra.
    + change (Qceiling y = Qceiling q).
      rewrite (Qceiling_unique y (n + 1)), (Qceiling_unique q (n + 1)).
      * reflexivity.
      * replace (n + 1 - 1) with n by lia. clearbody q. lra.
      * rewrite inject_Z_plus. change (inject_Z 1) with 1%Q. clearbody q. lra.
      * replace (n + 1 - 1) with n by lia. lra.
      * rewrite inject_Z_plus. change (inject_Z 1) with 1%Q. lra.
Qed.

Lemma hasMore_agrees (total limit offset : Z) :
  0 <= total < 9007199254740992 -> 0 <= offset < 9007199254740992 ->
  - 9007199254740992 < limit < 9007199254740992 ->
  hasMore (paginate_double total limit offset) = (offset + limit <? total).
Proof.
  intros Ht Ho Hl. cbn [hasMore paginate_double]. unfold of_int, double_add.
  set (x := (inject_Z offset + inject_Z limit)%Q).
  assert (Ex : (x == inject_Z (offset + limit))%Q)
    by (unfold x; rewrite inject_Z_plus; reflexivity).
  destruct (Z_le_gt_dec (offset + limit) 9007199254740992) as [Hs|Hs].
  - destruct (round_double_integer x (offset + limit) Ex) as (y & Ey & Hy); [lia|].
    rewrite Ey. cbn [number_ltb].
    destruct (Qle_bool (inject_Z total) y) eqn:B; cbn [negb]; symmetry.
    + apply Qle_bool_iff in B. rewrite Hy, <- Zle_Qle in B. apply Z.ltb_ge. exact B.
    + apply Z.ltb_lt. destruct (Z_lt_le_dec (offset + limit) total) as [|C]; [assumption|].
      exfalso. rewrite Zle_Qle, <- Hy in C. apply Qle_bool_iff in C. congruence.
  - assert (X1 : (9007199254740993 <= x)%Q).
    { rewrite Ex. change 9007199254740993%Q with (inject_Z 9007199254740993).
      rewrite <- Zle_Qle. lia. }
    assert (X2 : (x <= 18014398509481984)%Q).
    { rewrite Ex. change 18014398509481984%Q with (inject_Z 18014398509481984).
      rewrite <- Zle_Qle. lia. }
    assert (T : (inject_Z total <= 9007199254740991)%Q).
    { change 9007199254740991%Q with (inject_Z 9007199254740991).
      rewrite <- Zle_Qle. lia. }
    destruct (round_double_error x) as (y & e & Ey & [E1 E2] & L).
    { clearbody x. intros F. lra. }
    { pose proof (pow2_le 54 1000 ltac:(lia)) as P.
      change (pow2 54) with 18014398509481984%Q in P.
      set (p := pow2 1000) in *. clearbody p x. split; lra. }
    rewrite Ey. cbn [number_ltb].
    replace (offset + limit <? total) with false by (symmetry; apply Z.ltb_ge; lia).
    assert (Y : (inject_Z total <= y)%Q).
    { pose proof (pow2_pos e) as Pe.
      destruct L as [L|[L|L]].
      - change (pow2 52) with 4503599627370496%Q in L.
        set (pe := pow2 e) in *. clearbody pe x. lra.
      - change (pow2 52) with 4503599627370496%Q in L.
        set (pe := pow2 e) in *. clearbody pe x. lra.
      - subst e. pose proof pow2_tiny as Ti.
        set (pe := pow2 (-1074)) in *. clearbody pe x. lra. }
    apply Qle_bool_iff in Y. rewrite Y. reflexivity.
Qed.

Lemma same_number_refl x : same_number x x.
Proof. destruct x; cbn; [reflexivity|exact I|exact I|exact I]. Qed.

Lemma page_agrees (total limit offset : Z) :
  0 <= offset < 9007199254740992 ->
  - 9007199254740992 < limit < 9007199254740992 ->
  same_number (page (paginate total limit offset))
              (page (paginate_double total limit offset)).
Proof.
  intros Ho Hl. cbn [page paginate paginate_double]. unfold js_div, double_div.
  destruct (limit =? 0) eqn:E0.
  { destruct (offset =? 0); [exact I|]. destruct (0 <? offset); exact I. }
  apply Z.eqb_neq in E0.
  destruct (rounded_quotient offset limit) as (y & Ey & Fy & _ & Nb);
    [lia | exact E0 | exact Hl |].
  rewrite Ey. cbn [Math_floor]. rewrite Fy.
  set (n := Qfloor (inject_Z offset / inject_Z limit)) in *.
  unfold of_int. cbn [js_add double_add].
  destruct (round_double_integer (inject_Z n + inject_Z 1) (n + 1))
    as (y' & Ey' & Hy'); [rewrite inject_Z_plus; reflexivity | lia |].
  rewrite Ey'. cbn [same_number]. rewrite Hy', inject_Z_plus. reflexivity.
Qed.

Lemma totalPages_agrees (total limit offset : Z) :
  0 <= total < 9007199254740992 ->
  - 9007199254740992 < limit < 9007199254740992 ->
  same_number (totalPages (paginate total limit offset))
              (totalPages (paginate_double total limit offset)).
Proof.
  intros Ht Hl. cbn [totalPages paginate paginate_double].
  destruct (0 <? limit) eqn:E; [|apply same_number_refl].
  apply Z.ltb_lt in E. unfold js_div, double_div.
  destruct (limit =? 0) eqn:E0; [lia|].
  destruct (rounded_quotient total limit) as (y & Ey & _ & Cy & _);
    [lia | lia | exact Hl |].
  rewrite Ey. cbn [Math_ceil]. rewrite Cy. apply same_number_refl.
Qed.

(** The rounding on doubles that are well known: a tenth and a third, the
    two odd integers after 2^53 (ties to even, down and up), the largest
    double, and the overflow to infinity. *)
Lemma round_double_samples :
  same_number (round_double (1 # 10))
    (Finite (3602879701896397 # 36028797018963968)) /\
  same_number (round_double (- (1 # 3)))
    (Finite (- (6004799503160661 # 18014398509481984))) /\
  same_number (round_double (inject_Z (2 ^ 53 + 1))) (of_int (2 ^ 53)) /\
  same_number (round_double (inject_Z (2 ^ 53 + 3))) (of_int (2 ^ 53 + 4)) /\
  same_number (round_double (inject_Z (2 ^ 1024 - 2 ^ 970 - 1)))
    (of_int (2 ^ 1024 - 2 ^ 971)) /\
  round_double (inject_Z (2 ^ 1024 - 2 ^ 970)) = PosInfinity.
Proof.
  do 5 (refine (conj _ _); [vm_compute; reflexivity|]).
  vm_compute. reflexivity.
Qed.

(** C3 (amended). For integers below 2^53, where the arithmetic of doubles
    is exact: the orchestrator returns the entries of the rows gathered and
    metadata computed from the total the aggregator reports, an offset from 0
    on and the limit, and these are the metadata the machine computes.
    [hasMore] is [offset + limit < total] (false when the two are equal);
    [page] is the floor of [offset / limit], plus 1, for a limit other than
    0, and what the division by zero yields for the limit 0; [totalPages] is
    the ceiling of [total / limit] for a positive limit and 0 otherwise. *)
Theorem pagination_metadata (databases : list Database) (firstName : string)
    (lastName : option string) (limit offset : Z) (h : Handles) :
  fst (searchContactHandlesAcrossDatabases databases firstName lastName
         limit offset) = Ok h ->
  total h < 9007199254740992 ->
  0 <= offset < 9007199254740992 ->
  - 9007199254740992 < limit < 9007199254740992 ->
  0 <= total h /\
  exists r,
    searchContactsByName databases firstName lastName limit offset = Ok r /\
    data r = transformToContactInfo (rows h) /\
    p_total (pagination r) = total h /\
    p_limit (pagination r) = limit /\
    p_offset (pagination r) = offset /\
    hasMore (pagination r) = hasMore (paginate_double (total h) limit offset) /\
    same_number (page (pagination r))
                (page (paginate_double (total h) limit offset)) /\
    same_number (totalPages (pagination r))
                (totalPages (paginate_double (total h) limit offset)) /\
    (hasMore (pagination r) = true <-> offset + limit < total h) /\
    (offset + limit = total h -> hasMore (pagination r) = false) /\
    (limit <> 0 -> number_is (page (pagination r)) (offset / limit + 1)) /\
    (0 < limit ->
       limit * (offset / limit) <= offset < limit * (offset / limit + 1)) /\
    (limit = 0 ->
       page (pagination r) = if offset =? 0 then NaN else PosInfinity) /\
    (0 < limit ->
       exists k, number_is (totalPages (pagination r)) k /\
                 limit * (k - 1) < total h <= limit * k) /\
    (limit <= 0 -> totalPages (pagination r) = Finite 0).
Proof.
  intros Eh Ht Ho Hl.
  rewrite search_handles_after in Eh. cbv zeta in Eh. cbn [fst] in Eh.
  injection Eh as Eh. subst h. cbn [rows total] in *.
  set (v := fold_left (after_visit firstName lastName) databases
              (initial limit offset)) in *.
  assert (T0 : 0 <= totalAcrossDbs v).
  { unfold v. rewrite loop_total. cbn [initial totalAcrossDbs].
    pose proof (sum_counted_nonneg firstName lastName databases). lia. }
  split; [exact T0|].
  rewrite search_by_name_ok. cbv zeta. fold v. eexists. split; [reflexivity|].
  cbn [data pagination].
  set (t := totalAcrossDbs v) in *.
  split; [reflexivity|]. split; [reflexivity|]. split; [reflexivity|].
  split; [reflexivity|].
  split; [rewrite hasMore_agrees by lia; reflexivity|].
  split; [apply page_agrees; lia|].
  split; [apply totalPages_agrees; lia|].
  cbn [hasMore paginate]. rewrite Z.ltb_lt.
  split; [reflexivity|].
  split; [intros E; apply Z.ltb_ge; lia|].
  split; [apply page_nonzero_limit|].
  split.
  { intros Hp. split; [apply Z.mul_div_le | apply Z.mul_succ_div_gt]; exact Hp. }
  split.
  { intros ->. unfold paginate, js_div. cbn [page Z.eqb].
    destruct (offset =? 0) eqn:E; [reflexivity|].
    destruct (0 <? offset) eqn:E'; [reflexivity|lia]. }
  split.
  { intros Hp. exists (- ((- t) / limit)). split.
    - apply totalPages_positive_limit, Hp.
    - apply ceiling_bounds, Hp. }
  intros Hn. unfold paginate. cbn [totalPages].
  destruct (0 <? limit) eqn:E; [lia|reflexivity].
Qed.

Lemma pagination_metadata_witness :
  exists r,
    searchContactsByName [db3; db5; db2] "Jo" None 4 2 = Ok r /\
    p_total (pagination r) = 10 /\
    hasMore (pagination r) = true /\
    number_is (page (pagination r)) 1 /\
    exists k, number_is (totalPages (pagination r)) k /\ 4 * (k - 1) < 10 <= 4 * k.
Proof.
  destruct (pagination_metadata [db3; db5; db2] "Jo" None 4 2
              {| rows := results (snd (searchContactHandlesAcrossDatabases
                                         [db3; db5; db2] "Jo" None 4 2));
                 total := 10 |})
    as (_ & r & E & _ & Et & _ & _ & _ & _ & _ & Hm & _ & Hp & _ & _ & Hk & _);
    [reflexivity | reflexivity | lia | lia |].
  cbn [total] in Et, Hm, Hk.
  exists r. split; [exact E|]. split; [exact Et|].
  split; [apply Hm; lia|]. split; [apply Hp; lia|apply Hk; lia].
Defined.

(** C3, as stated, fails from 2^53 on: for the offset 2^53 and the limit 1
    the machine computes the page 2^53, the sum 2^53 + 1 not being a double,
    where the floor of [offset / limit], plus 1, is 2^53 + 1. *)
Lemma page_rounds_from_2_53 :
  number_is (page (paginate_double 0 1 9007199254740992)) 9007199254740992 /\
  ~ number_is (page (paginate_double 0 1 9007199254740992))
      (9007199254740992 / 1 + 1).
Proof.
  split.
  - vm_compute. reflexivity.
  - vm_compute. discriminate.
Qed.
